(** * Cycles motion-triangle intersection
      (intern/cycles/kernel/geom/motion_triangle_intersect.h)

    A shallow embedding of the four kernel functions of the header

      - [motion_triangle_refine]
      - [motion_triangle_refine_local]
      - [motion_triangle_intersect]
      - [motion_triangle_intersect_local]

    together with the properties of them that the design document of the
    motion-triangle core states.

    Conventions of the embedding.
      - C [float] is IEEE-754 binary32, taken from the executable
        specification of the Standard Library ([SpecFloat]).
      - C [int] and [uint] are [Z] with the 32-bit wrap-around written out.
      - The caller-owned objects passed by pointer ([Intersection *],
        [LocalIntersection *], [uint *lcg_state]) are threaded through:
        every function returns the new value next to its C result.
      - An access outside an array and a division by zero have no defined
        behaviour in C; the functions that can perform one return [option],
        with [None] for such a run.
      - Everything the header calls but does not define (vector algebra,
        transforms, vertex sampling, the ray/triangle predicate, the
        visibility table, the random stream) is a field of the class
        [Kernel]; the preprocessor symbols the header branches on are the
        fields of [Config]. *)

From Stdlib Require Import ZArith Bool Lia SpecFloat.
From stdpp Require Import base list.

Local Open Scope Z_scope.

(** ** Scalars *)

(** C [float]: IEEE-754 binary32 (24 bits of precision, emax 128), round to
    nearest even; [Float32] holds its operations. *)
Definition float : Type := spec_float.

Module Float32.
Definition prec : Z := 24.
Definition emax : Z := 128.

Definition add : float -> float -> float := SFadd prec emax.
Definition sub : float -> float -> float := SFsub prec emax.
Definition mul : float -> float -> float := SFmul prec emax.
Definition div : float -> float -> float := SFdiv prec emax.
Definition sqrt : float -> float := SFsqrt prec emax.

(** [a == b], [a < b], [a <= b], [a > b]; all false on a NaN operand. *)
Definition eqb : float -> float -> bool := SFeqb.
Definition ltb : float -> float -> bool := SFltb.
Definition leb : float -> float -> bool := SFleb.
Definition gtb (a b : float) : bool := SFltb b a.

(** The literal of an integer, e.g. [5.0f]. *)
Definition of_Z (n : Z) : float := binary_normalize prec emax n 0 false.

Definition zero : float := S754_zero false.
Definition one : float := of_Z 1.
End Float32.

(** C [int]: two's complement on 32 bits. *)
Definition int_wrap (n : Z) : Z := (n + 2 ^ 31) mod 2 ^ 32 - 2 ^ 31.
Definition int_add (a b : Z) : Z := int_wrap (a + b).
Definition int_sub (a b : Z) : Z := int_wrap (a - b).

(** C [uint], and the conversions [(uint)i] and [(int)u]. *)
Definition uint_of_int (n : Z) : Z := n mod 2 ^ 32.
Definition int_of_uint (n : Z) : Z := int_wrap n.

Definition INT_MAX : Z := 2 ^ 31 - 1.

(** ** Data *)

(** [float3] of util/types_float3.h. *)
Record float3 : Type := make_float3 { x : float; y : float; z : float }.

(** [Intersection] of kernel/types.h:
    [float t, u, v; int prim; int object; int type]. *)
Record Intersection : Type := mkIntersection {
  isect_t : float;
  isect_u : float;
  isect_v : float;
  isect_prim : Z;
  isect_object : Z;
  isect_type : Z
}.

(** [LocalIntersection] of kernel/types.h:
    [int num_hits; Intersection hits[LOCAL_MAX_HITS]; float3 Ng[LOCAL_MAX_HITS]].
    The two arrays are lists; their length is the capacity. *)
Record LocalIntersection : Type := mkLocalIntersection {
  num_hits : Z;
  hits : list Intersection;
  Ng : list float3
}.

(** The preprocessor symbols that select the code of the header. *)
Record Config : Type := mkConfig {
  INTERSECTION_REFINE : bool;     (* __INTERSECTION_REFINE__ *)
  KERNEL_GPU_RAYTRACING : bool;   (* __KERNEL_GPU_RAYTRACING__ *)
  VISIBILITY_FLAG : bool          (* __VISIBILITY_FLAG__ *)
}.

(** What the header uses from the rest of the kernel. *)
Class Kernel : Type := {
  KernelGlobals : Type;
  ShaderData : Type;
  Transform : Type;
  (* sd->object_flag *)
  object_flag : ShaderData -> Z;
  SD_OBJECT_TRANSFORM_APPLIED : Z;
  PRIMITIVE_MOTION_TRIANGLE : Z;
  (* operator+, operator-, operator*(float3, float) *)
  float3_add : float3 -> float3 -> float3;
  float3_sub : float3 -> float3 -> float3;
  float3_mul : float3 -> float -> float3;
  cross : float3 -> float3 -> float3;
  dot : float3 -> float3 -> float;
  normalize : float3 -> float3;
  (* normalize_len(a, &t): the unit vector and, through the pointer, the
     length *)
  normalize_len : float3 -> float3 * float;
  object_get_transform : KernelGlobals -> ShaderData -> Transform;
  object_get_inverse_transform : KernelGlobals -> ShaderData -> Transform;
  transform_point : Transform -> float3 -> float3;
  transform_direction : Transform -> float3 -> float3;
  (* motion_triangle_vertices(kg, object, prim, time, verts) fills verts *)
  motion_triangle_vertices :
    KernelGlobals -> Z -> Z -> float -> float3 * float3 * float3;
  (* ray_triangle_intersect(P, dir, tmax, v0, v1, v2, &u, &v, &t):
     [Some (u, v, t)] when it returns true *)
  ray_triangle_intersect :
    float3 -> float3 -> float -> float3 -> float3 -> float3 ->
    option (float * float * float);
  (* kernel_tex_fetch(__prim_visibility, prim_addr) *)
  prim_visibility : KernelGlobals -> Z -> Z;
  (* lcg_step_uint(&state): the new state and the value returned *)
  lcg_step_uint : Z -> Z * Z
}.

Declare Scope float3_scope.
Delimit Scope float3_scope with f3.
Bind Scope float3_scope with float3.
Notation "a + b" := (float3_add a b) : float3_scope.
Notation "a - b" := (float3_sub a b) : float3_scope.
Notation "a * f" := (float3_mul a f) : float3_scope.

(** ** The functions of the header *)

Section Header.
Context {K : Kernel}.

(** [sd->object_flag & SD_OBJECT_TRANSFORM_APPLIED] as a C condition. *)
Definition transform_applied (sd : ShaderData) : bool :=
  negb (Z.land (object_flag sd) SD_OBJECT_TRANSFORM_APPLIED =? 0).

(** Lines 58-78 of [motion_triangle_refine], which are also lines 117-136
    of [motion_triangle_refine_local]: advance the point by t, re-solve
    the distance to the plane of the triangle, advance again, and return
    to world space unless the transform is applied. *)
Definition refine_position (kg : KernelGlobals) (sd : ShaderData)
    (P D : float3) (t : float) (verts : float3 * float3 * float3) : float3 :=
  let '(verts0, verts1, verts2) := verts in
  let P := (P + D * t)%f3 in
  let e1 := (verts0 - verts2)%f3 in
  let e2 := (verts1 - verts2)%f3 in
  let s1 := cross D e2 in
  let invdivisor := Float32.div Float32.one (dot s1 e1) in
  let d := (P - verts2)%f3 in
  let s2 := cross d e1 in
  let rt := Float32.mul (dot e2 s2) invdivisor in
  let P := (P + D * rt)%f3 in
  if negb (transform_applied sd)
  then transform_point (object_get_transform kg sd) P
  else P.

Definition motion_triangle_refine (cfg : Config) (kg : KernelGlobals)
    (sd : ShaderData) (P D : float3) (t : float)
    (isect_object isect_prim : Z) (verts : float3 * float3 * float3)
    : float3 :=
  if INTERSECTION_REFINE cfg then
    if negb (transform_applied sd) then
      if Float32.eqb t Float32.zero then P
      else
        let tfm := object_get_inverse_transform kg sd in
        let P := transform_point tfm P in
        let D := transform_direction tfm (D * t)%f3 in
        let '(D, t) := normalize_len D in
        refine_position kg sd P D t verts
    else refine_position kg sd P D t verts
  else (P + D * t)%f3.

Definition motion_triangle_refine_local (cfg : Config) (kg : KernelGlobals)
    (sd : ShaderData) (P D : float3) (t : float)
    (isect_object isect_prim : Z) (verts : float3 * float3 * float3)
    : float3 :=
  if KERNEL_GPU_RAYTRACING cfg then
    motion_triangle_refine cfg kg sd P D t isect_object isect_prim verts
  else if INTERSECTION_REFINE cfg then
    if negb (transform_applied sd) then
      let tfm := object_get_inverse_transform kg sd in
      let P := transform_point tfm P in
      let D := transform_direction tfm D in
      let D := normalize D in
      refine_position kg sd P D t verts
    else refine_position kg sd P D t verts
  else (P + D * t)%f3.

(** The record written at lines 172-177 and 252-257. *)
Definition motion_triangle_hit (t u v : float) (prim object : Z)
    : Intersection :=
  {| isect_t := t; isect_u := u; isect_v := v;
     isect_prim := prim; isect_object := object;
     isect_type := PRIMITIVE_MOTION_TRIANGLE |}.

(** Returns the C result and the value of [*isect] on return. *)
Definition motion_triangle_intersect (cfg : Config) (kg : KernelGlobals)
    (isect : Intersection) (P dir : float3) (tmax time : float)
    (visibility : Z) (object prim prim_addr : Z) : bool * Intersection :=
  let '(verts0, verts1, verts2) :=
    motion_triangle_vertices kg object prim time in
  match ray_triangle_intersect P dir tmax verts0 verts1 verts2 with
  | Some (u, v, t) =>
      if negb (VISIBILITY_FLAG cfg)
         || negb (Z.land (prim_visibility kg prim_addr) visibility =? 0)
      then (true, motion_triangle_hit t u v prim object)
      else (false, isect)
  | None => (false, isect)
  end.

(** [a[i]] for reading and [a[i] = v], [None] outside the array. *)
Definition array_get {A : Type} (a : list A) (i : Z) : option A :=
  if 0 <=? i then a !! Z.to_nat i else None.

Definition array_set {A : Type} (a : list A) (i : Z) (v : A)
    : option (list A) :=
  if (0 <=? i) && (i <? Z.of_nat (length a))
  then Some (<[Z.to_nat i := v]> a)
  else None.

(** The loop of lines 219-223, [for (i = ...; i >= 0; --i)], with [n] the
    number of iterations left: it reads slots n-1 down to 0 and answers
    whether one of them holds the distance [t]. *)
Fixpoint duplicate_scan (slots : list Intersection) (t : float) (n : nat)
    : option bool :=
  match n with
  | O => Some false
  | S i =>
      h ← slots !! i;
      if Float32.eqb (isect_t h) t then Some true
      else duplicate_scan slots t i
  end.

(** Lines 250-260: write the record and the geometric normal at [hit]. *)
Definition record_intersection (local_isect : LocalIntersection) (hit : Z)
    (t u v : float) (prim object : Z) (verts : float3 * float3 * float3)
    : option LocalIntersection :=
  let '(verts0, verts1, verts2) := verts in
  hits' ← array_set (hits local_isect) hit
            (motion_triangle_hit t u v prim object);
  Ng' ← array_set (Ng local_isect) hit
          (normalize (cross (verts1 - verts0) (verts2 - verts0))%f3);
  Some {| num_hits := num_hits local_isect; hits := hits'; Ng := Ng' |}.

Definition set_num_hits (local_isect : LocalIntersection) (n : Z)
    : LocalIntersection :=
  {| num_hits := n; hits := hits local_isect; Ng := Ng local_isect |}.

(** [lcg_state] is [None] for a null pointer.  Returns the C result, the
    value of [*local_isect] and the value of [*lcg_state] on return. *)
Definition motion_triangle_intersect_local (kg : KernelGlobals)
    (local_isect : LocalIntersection) (P dir : float3) (time : float)
    (object prim prim_addr : Z) (tmax : float) (lcg_state : option Z)
    (max_hits : Z) : option (bool * LocalIntersection * option Z) :=
  let verts := motion_triangle_vertices kg object prim time in
  let '(verts0, verts1, verts2) := verts in
  match ray_triangle_intersect P dir tmax verts0 verts1 verts2 with
  | None => Some (false, local_isect, lcg_state)
  | Some (u, v, t) =>
      if max_hits =? 0 then Some (true, local_isect, lcg_state)
      else
        match lcg_state with
        | Some state =>
            let i := int_sub (Z.min max_hits (num_hits local_isect)) 1 in
            dup ← duplicate_scan (hits local_isect) t (Z.to_nat (i + 1));
            if dup : bool then Some (false, local_isect, lcg_state)
            else
              let local_isect :=
                set_num_hits local_isect
                  (int_add (num_hits local_isect) 1) in
              if num_hits local_isect <=? max_hits then
                let hit := int_sub (num_hits local_isect) 1 in
                local_isect ←
                  record_intersection local_isect hit t u v prim object
                    verts;
                Some (false, local_isect, lcg_state)
              else
                let '(state, r) := lcg_step_uint state in
                let n := uint_of_int (num_hits local_isect) in
                if n =? 0 then None
                else
                  let hit := int_of_uint (uint_of_int r mod n) in
                  if hit >=? max_hits
                  then Some (false, local_isect, Some state)
                  else
                    local_isect ←
                      record_intersection local_isect hit t u v prim
                        object verts;
                    Some (false, local_isect, Some state)
        | None =>
            closer ←
              (if num_hits local_isect =? 0 then Some false
               else
                 h ← array_get (hits local_isect) 0;
                 Some (Float32.gtb t (isect_t h)));
            if closer : bool then Some (false, local_isect, lcg_state)
            else
              let hit := 0 in
              let local_isect := set_num_hits local_isect 1 in
              local_isect ←
                record_intersection local_isect hit t u v prim object verts;
              Some (false, local_isect, lcg_state)
        end
  end.

End Header.

(** A run of the traversal over a list of candidates, each one call of
    [motion_triangle_intersect_local] on the buffer and the random stream
    the previous call left; it stops at the first call that returns true. *)
Record Candidate `{K : Kernel} : Type := mkCandidate {
  cand_P : float3;
  cand_dir : float3;
  cand_time : float;
  cand_object : Z;
  cand_prim : Z;
  cand_prim_addr : Z;
  cand_tmax : float
}.

Definition intersect_candidate `{K : Kernel} (kg : KernelGlobals)
    (local_isect : LocalIntersection) (c : Candidate) (lcg_state : option Z)
    (max_hits : Z) : option (bool * LocalIntersection * option Z) :=
  motion_triangle_intersect_local kg local_isect (cand_P c) (cand_dir c)
    (cand_time c) (cand_object c) (cand_prim c) (cand_prim_addr c)
    (cand_tmax c) lcg_state max_hits.

Fixpoint feed_candidates `{K : Kernel} (kg : KernelGlobals)
    (local_isect : LocalIntersection) (lcg_state : option Z) (max_hits : Z)
    (cs : list Candidate) : option (bool * LocalIntersection * option Z) :=
  match cs with
  | [] => Some (false, local_isect, lcg_state)
  | c :: cs =>
      '(stop, local_isect, lcg_state) ←
        intersect_candidate kg local_isect c lcg_state max_hits;
      if stop : bool then Some (true, local_isect, lcg_state)
      else feed_candidates kg local_isect lcg_state max_hits cs
  end.

(** What the geometric stage of a call yields for a candidate. *)
Definition candidate_hit `{K : Kernel} (kg : KernelGlobals) (c : Candidate)
    : option (float * float * float) :=
  let '(verts0, verts1, verts2) :=
    motion_triangle_vertices kg (cand_object c) (cand_prim c) (cand_time c) in
  ray_triangle_intersect (cand_P c) (cand_dir c) (cand_tmax c)
    verts0 verts1 verts2.

(** The geometric normal stored with a candidate (line 260). *)
Definition candidate_Ng `{K : Kernel} (kg : KernelGlobals) (c : Candidate)
    : float3 :=
  let '(verts0, verts1, verts2) :=
    motion_triangle_vertices kg (cand_object c) (cand_prim c) (cand_time c) in
  normalize (cross (verts1 - verts0) (verts2 - verts0))%f3.

(** The contract of the caller of [motion_triangle_intersect_local] on the
    buffer it passes: the count is a non-negative [int] that can still be
    incremented, and both arrays have room for [max_hits] entries. *)
Definition buffer_ok (local_isect : LocalIntersection) (max_hits : Z) : Prop :=
  0 <= num_hits local_isect < INT_MAX /\
  max_hits <= Z.of_nat (length (hits local_isect)) /\
  length (Ng local_isect) = length (hits local_isect).

(** No slot that the duplicate scan visits holds the distance [t]. *)
Definition fresh_distance (local_isect : LocalIntersection) (max_hits : Z)
    (t : float) : Prop :=
  forall i h,
    0 <= i < Z.min max_hits (num_hits local_isect) ->
    hits local_isect !! Z.to_nat i = Some h ->
    Float32.eqb (isect_t h) t = false.

(** The slots that the duplicate scan visits hold pairwise different
    distances (different for the [==] of C). *)
Definition distinct_distances (local_isect : LocalIntersection)
    (max_hits : Z) : Prop :=
  forall i j hi hj,
    0 <= i < Z.min max_hits (num_hits local_isect) ->
    0 <= j < Z.min max_hits (num_hits local_isect) ->
    i <> j ->
    hits local_isect !! Z.to_nat i = Some hi ->
    hits local_isect !! Z.to_nat j = Some hj ->
    Float32.eqb (isect_t hi) (isect_t hj) = false.

(** The record and the normal that a call stores for a candidate that the
    geometric test accepts with (u, v, t). *)
Definition candidate_record `{K : Kernel} (c : Candidate) (u v t : float)
    : Intersection :=
  motion_triangle_hit t u v (cand_prim c) (cand_object c).

(** Slot 0 of the buffer holds a candidate of [seen] that the geometric test
    accepts, and no candidate of [seen] is accepted at a strictly smaller
    distance. *)
Definition holds_nearest `{K : Kernel} (kg : KernelGlobals)
    (seen : list Candidate) (local_isect : LocalIntersection) : Prop :=
  exists c u v t,
    c ∈ seen /\
    candidate_hit kg c = Some (u, v, t) /\
    hits local_isect !! 0%nat = Some (candidate_record c u v t) /\
    Ng local_isect !! 0%nat = Some (candidate_Ng kg c) /\
    forall c' u' v' t',
      c' ∈ seen -> candidate_hit kg c' = Some (u', v', t') ->
      Float32.ltb t' t = false.

(** The place of a float in the order of [<]: the sign class first, then
    exponent and mantissa (reversed for negative numbers).  NaN, which
    compares with nothing, is given the place of zero. *)
Definition float_rank (a : float) : Z * Z * Z :=
  match a with
  | S754_infinity true => (-2, 0, 0)
  | S754_finite true m e => (-1, - e, - Z.pos m)
  | S754_zero _ => (0, 0, 0)
  | S754_nan => (0, 0, 0)
  | S754_finite false m e => (1, e, Z.pos m)
  | S754_infinity false => (2, 0, 0)
  end.

Definition rank_lt (p q : Z * Z * Z) : Prop :=
  let '(p1, p2, p3) := p in
  let '(q1, q2, q3) := q in
  p1 < q1 \/ (p1 = q1 /\ (p2 < q2 \/ (p2 = q2 /\ p3 < q3))).

(** ** A reference kernel

    The collaborators of the header in their plain scalar form on binary32,
    over a small scene type.  The theorems below hold for every [Kernel];
    this one serves to run the header on concrete rays and triangles. *)
Module Reference.
Import Float32.

(** Modelled from the spec: the float3 operators of util/math_float3.h,
    which is not among the sources: component-wise sum, difference and
    product with a scalar. *)
Definition f3_add (a b : float3) : float3 :=
  make_float3 (add (x a) (x b)) (add (y a) (y b)) (add (z a) (z b)).

Definition f3_sub (a b : float3) : float3 :=
  make_float3 (sub (x a) (x b)) (sub (y a) (y b)) (sub (z a) (z b)).

Definition f3_mul (a : float3) (f : float) : float3 :=
  make_float3 (mul (x a) f) (mul (y a) f) (mul (z a) f).

(** Modelled from the spec: cross and dot product of util/math_float3.h,
    not among the sources. *)
Definition f3_cross (a b : float3) : float3 :=
  make_float3 (sub (mul (y a) (z b)) (mul (z a) (y b)))
              (sub (mul (z a) (x b)) (mul (x a) (z b)))
              (sub (mul (x a) (y b)) (mul (y a) (x b))).

Definition f3_dot (a b : float3) : float :=
  add (add (mul (x a) (x b)) (mul (y a) (y b))) (mul (z a) (z b)).

(** Modelled from the spec: length and normalization of util/math_float3.h,
    not among the sources: the vector scaled by the inverse of its length. *)
Definition f3_len (a : float3) : float := sqrt (f3_dot a a).

Definition f3_normalize (a : float3) : float3 :=
  f3_mul a (div one (f3_len a)).

Definition f3_normalize_len (a : float3) : float3 * float :=
  let t := f3_len a in (f3_mul a (div one t), t).

(** Modelled from the spec: the affine transform of util/transform.h, not
    among the sources: three rows of a linear part and a translation. *)
Record transform : Type := mkTransform {
  row_x : float3 * float;
  row_y : float3 * float;
  row_z : float3 * float
}.

Definition tfm_direction (t : transform) (a : float3) : float3 :=
  make_float3 (f3_dot (fst (row_x t)) a) (f3_dot (fst (row_y t)) a)
              (f3_dot (fst (row_z t)) a).

Definition tfm_point (t : transform) (a : float3) : float3 :=
  make_float3 (add (f3_dot (fst (row_x t)) a) (snd (row_x t)))
              (add (f3_dot (fst (row_y t)) a) (snd (row_y t)))
              (add (f3_dot (fst (row_z t)) a) (snd (row_z t))).

(** Modelled from the spec: the part of ShaderData the refiner reads (the
    object flags and the two instance transforms), kernel/types.h not being
    among the sources. *)
Record shader_data : Type := mkShaderData {
  sd_object_flag : Z;
  ob_tfm : transform;
  ob_itfm : transform
}.

(** Modelled from the spec: the scene storage behind KernelGlobals: per
    primitive the vertices at the two keyframes (time 0 and time 1), and
    the per-primitive visibility flags. *)
Record scene : Type := mkScene {
  keyframes : list ((float3 * float3 * float3) * (float3 * float3 * float3));
  visibility_flags : list Z
}.

(** Modelled from the spec: the Vertex Time-Sampler (section 6), linear
    interpolation between the two keyframes bracketing the time. *)
Definition lerp (a b : float3) (t : float) : float3 :=
  f3_add (f3_mul a (sub one t)) (f3_mul b t).

Definition sample_vertices (kg : scene) (object prim : Z) (time : float)
    : float3 * float3 * float3 :=
  match keyframes kg !! Z.to_nat prim with
  | Some ((a0, a1, a2), (b0, b1, b2)) =>
      (lerp a0 b0 time, lerp a1 b1 time, lerp a2 b2 time)
  | None =>
      let o := make_float3 zero zero zero in (o, o, o)
  end.

Definition fetch_visibility (kg : scene) (prim_addr : Z) : Z :=
  default 0 (visibility_flags kg !! Z.to_nat prim_addr).

(** Modelled from the spec: the Ray-Triangle Test (section 4.1) of
    util/math_intersect.h, not among the sources: edges e1 = v0 - v2 and
    e2 = v1 - v2, a determinant-based solve, and acceptance only for a
    non-degenerate divisor, t in (0, tmax) and (u, v) in the simplex. *)
Definition triangle_test (P D : float3) (tmax : float) (v0 v1 v2 : float3)
    : option (float * float * float) :=
  let e1 := f3_sub v0 v2 in
  let e2 := f3_sub v1 v2 in
  let s1 := f3_cross D e2 in
  let divisor := f3_dot s1 e1 in
  if eqb divisor zero then None
  else
    let invdivisor := div one divisor in
    let d := f3_sub P v2 in
    let u := mul (f3_dot d s1) invdivisor in
    let s2 := f3_cross d e1 in
    let v := mul (f3_dot D s2) invdivisor in
    let t := mul (f3_dot e2 s2) invdivisor in
    if leb zero u && leb zero v && leb (add u v) one
       && ltb zero t && ltb t tmax
    then Some (u, v, t)
    else None.

(** Modelled from the spec: the pseudo-random stream (section 6), an opaque
    stateful counter: a draw returns the state and advances it. *)
Definition counter_stream (state : Z) : Z * Z :=
  ((state + 1) mod 2 ^ 32, state).

(** The stream of the reservoir scenario of section 8: every draw is 0. *)
Definition zero_stream (state : Z) : Z * Z :=
  ((state + 1) mod 2 ^ 32, 0).

Definition kernel (stream : Z -> Z * Z) : Kernel := {|
  KernelGlobals := scene;
  ShaderData := shader_data;
  Transform := transform;
  object_flag := sd_object_flag;
  SD_OBJECT_TRANSFORM_APPLIED := 4;
  PRIMITIVE_MOTION_TRIANGLE := 2;
  float3_add := f3_add;
  float3_sub := f3_sub;
  float3_mul := f3_mul;
  cross := f3_cross;
  dot := f3_dot;
  normalize := f3_normalize;
  normalize_len := f3_normalize_len;
  object_get_transform := fun _ sd => ob_tfm sd;
  object_get_inverse_transform := fun _ sd => ob_itfm sd;
  transform_point := tfm_point;
  transform_direction := tfm_direction;
  motion_triangle_vertices := sample_vertices;
  ray_triangle_intersect := triangle_test;
  prim_visibility := fetch_visibility;
  lcg_step_uint := stream
|}.

(** *** A scene: four unit right triangles facing the z axis *)

Definition f (n : Z) : float := of_Z n.
Definition quarter : float := binary_normalize prec emax 1 (-2) false.

(** The triangle (1,0,d) (0,1,d) (0,0,d). *)
Definition triangle_at (d : Z) : float3 * float3 * float3 :=
  (make_float3 (f 1) (f 0) (f d), make_float3 (f 0) (f 1) (f d),
   make_float3 (f 0) (f 0) (f d)).

Definition still (tri : float3 * float3 * float3) := (tri, tri).

(** Primitives 0..3 at distances 5, 3, 7 and 5 from the origin; primitive 2
    is invisible to every ray. *)
Definition the_scene : scene := {|
  keyframes := [still (triangle_at 5); still (triangle_at 3);
                still (triangle_at 7); still (triangle_at 5)];
  visibility_flags := [1; 1; 0; 3]
|}.

(** Primitives 0..3 at the pairwise distinct distances 5, 3, 7 and 9. *)
Definition distinct_scene : scene := {|
  keyframes := [still (triangle_at 5); still (triangle_at 3);
                still (triangle_at 7); still (triangle_at 9)];
  visibility_flags := [1; 1; 1; 1]
|}.

Definition origin : float3 := make_float3 quarter quarter (f 0).
Definition up : float3 := make_float3 (f 0) (f 0) (f 1).

(** The ray from (1/4, 1/4, 0) along +z, offered primitive [prim]. *)
Definition ray_at `{K : Kernel} (prim : Z) : Candidate :=
  mkCandidate K origin up (f 0) 0 prim prim (f 100).

Definition identity : transform := {|
  row_x := (make_float3 (f 1) (f 0) (f 0), f 0);
  row_y := (make_float3 (f 0) (f 1) (f 0), f 0);
  row_z := (make_float3 (f 0) (f 0) (f 1), f 0)
|}.

(** An object whose vertices have the transform applied, and one whose
    vertices have not. *)
Definition sd_applied : shader_data := mkShaderData 4 identity identity.
Definition sd_instanced : shader_data := mkShaderData 0 identity identity.

Definition cfg_cpu : Config := mkConfig true false true.
Definition cfg_gpu : Config := mkConfig true true true.

(** An empty buffer of capacity 4. *)
Definition no_hit : Intersection := mkIntersection (f 0) (f 0) (f 0) 0 0 0.
Definition empty_buffer : LocalIntersection := {|
  num_hits := 0;
  hits := replicate 4 no_hit;
  Ng := replicate 4 (make_float3 (f 0) (f 0) (f 0))
|}.

(** A buffer of capacity 4 that holds primitives 0 (distance 5) and 1
    (distance 3) of the scenes above, as two calls on them leave it. *)
Definition hit_of (prim d : Z) : Intersection :=
  mkIntersection (f d) quarter quarter prim 0 2.

Definition two_hits : LocalIntersection := {|
  num_hits := 2;
  hits := [hit_of 0 5; hit_of 1 3; no_hit; no_hit];
  Ng := [up; up; make_float3 (f 0) (f 0) (f 0); make_float3 (f 0) (f 0) (f 0)]
|}.

(** The same with the distance-5 hit alone. *)
Definition one_hit : LocalIntersection := {|
  num_hits := 1;
  hits := [hit_of 0 5; no_hit; no_hit; no_hit];
  Ng := [up; make_float3 (f 0) (f 0) (f 0); make_float3 (f 0) (f 0) (f 0);
         make_float3 (f 0) (f 0) (f 0)]
|}.

(** The largest float below 2: a traversal distance one unit in the last
    place short of the plane z = 2. *)
Definition below_two : float :=
  binary_normalize prec emax (2 ^ 24 - 1) (-23) false.

End Reference.

(** ** The order of binary32 *)

Section FloatOrder.

Lemma compare_cont_Eq (m1 m2 : positive) :
  Pos.compare_cont Eq m1 m2 = (Z.pos m1 ?= Z.pos m2).
Proof. reflexivity. Qed.

(** Away from NaN, [a < b] is the order of the ranks. *)
Lemma ltb_rank (a b : float) :
  a <> S754_nan -> b <> S754_nan ->
  (Float32.ltb a b = true <-> rank_lt (float_rank a) (float_rank b)).
Proof.
  intros Ha Hb. unfold Float32.ltb, SFltb.
  destruct a as [sa|sa| |sa ma ea], b as [sb|sb| |sb mb eb];
    try contradiction; try destruct sa; try destruct sb;
    cbn [SFcompare float_rank rank_lt];
    try (split; [discriminate | lia]);
    try (split; [lia | reflexivity]).
  - rewrite compare_cont_Eq.
    destruct (Z.compare_spec ea eb), (Z.compare_spec (Z.pos ma) (Z.pos mb));
      cbn [CompOpp]; split; (discriminate || lia || reflexivity).
  - rewrite compare_cont_Eq.
    destruct (Z.compare_spec ea eb), (Z.compare_spec (Z.pos ma) (Z.pos mb));
      split; (discriminate || lia || reflexivity).
Qed.

Lemma nan_dec (a : float) : {a = S754_nan} + {a <> S754_nan}.
Proof. destruct a; (now left) || (now right). Qed.

Lemma ltb_nan_l (b : float) : Float32.ltb S754_nan b = false.
Proof. reflexivity. Qed.

Lemma ltb_nan_r (a : float) : Float32.ltb a S754_nan = false.
Proof. now destruct a. Qed.

Lemma ltb_irrefl (a : float) : Float32.ltb a a = false.
Proof.
  destruct (nan_dec a) as [->|Ha]; [reflexivity|].
  destruct (Float32.ltb a a) eqn:Hlt; [|reflexivity].
  apply ltb_rank in Hlt; try assumption.
  unfold rank_lt in Hlt. destruct (float_rank a) as [[? ?] ?]. lia.
Qed.

Lemma ltb_asym (a b : float) :
  Float32.ltb a b = true -> Float32.ltb b a = false.
Proof.
  intros Hab.
  destruct (nan_dec a) as [->|Ha]; [discriminate|].
  destruct (nan_dec b) as [->|Hb];
    [now rewrite ltb_nan_r in Hab|].
  destruct (Float32.ltb b a) eqn:Hba; [|reflexivity].
  apply ltb_rank in Hab, Hba; try assumption.
  unfold rank_lt in *.
  destruct (float_rank a) as [[? ?] ?], (float_rank b) as [[? ?] ?]. lia.
Qed.

(** If [a] is not below [b] and [b] is not below [c], then [a] is not below
    [c], as long as [b] is a number. *)
Lemma ltb_negative_transitive (a b c : float) :
  b <> S754_nan ->
  Float32.ltb a b = false -> Float32.ltb b c = false ->
  Float32.ltb a c = false.
Proof.
  intros Hb Hab Hbc.
  destruct (nan_dec a) as [->|Ha]; [reflexivity|].
  destruct (nan_dec c) as [->|Hc]; [apply ltb_nan_r|].
  destruct (Float32.ltb a c) eqn:Hac; [|reflexivity].
  apply ltb_rank in Hac; try assumption.
  assert (Hab' : ~ rank_lt (float_rank a) (float_rank b))
    by (rewrite <- ltb_rank by assumption; congruence).
  assert (Hbc' : ~ rank_lt (float_rank b) (float_rank c))
    by (rewrite <- ltb_rank by assumption; congruence).
  unfold rank_lt in *.
  destruct (float_rank a) as [[? ?] ?], (float_rank b) as [[? ?] ?],
    (float_rank c) as [[? ?] ?]. lia.
Qed.

(** [==] is symmetric. *)
Lemma eqb_sym (a b : float) : Float32.eqb a b = Float32.eqb b a.
Proof.
  unfold Float32.eqb, SFeqb.
  destruct a as [sa|sa| |sa ma ea], b as [sb|sb| |sb mb eb];
    try destruct sa; try destruct sb; cbn [SFcompare]; try reflexivity.
  - rewrite !compare_cont_Eq.
    destruct (Z.compare_spec ea eb), (Z.compare_spec eb ea),
      (Z.compare_spec (Z.pos ma) (Z.pos mb)),
      (Z.compare_spec (Z.pos mb) (Z.pos ma)); try lia; reflexivity.
  - rewrite !compare_cont_Eq.
    destruct (Z.compare_spec ea eb), (Z.compare_spec eb ea),
      (Z.compare_spec (Z.pos ma) (Z.pos mb)),
      (Z.compare_spec (Z.pos mb) (Z.pos ma)); try lia; reflexivity.
Qed.

End FloatOrder.

(** ** Machine integers and arrays *)

Lemma int_wrap_id (n : Z) : - 2 ^ 31 <= n < 2 ^ 31 -> int_wrap n = n.
Proof.
  intros Hn. unfold int_wrap.
  rewrite Z.mod_small by lia. lia.
Qed.

Lemma int_add_id (a b : Z) : - 2 ^ 31 <= a + b < 2 ^ 31 -> int_add a b = a + b.
Proof. apply int_wrap_id. Qed.

Lemma int_sub_id (a b : Z) : - 2 ^ 31 <= a - b < 2 ^ 31 -> int_sub a b = a - b.
Proof. apply int_wrap_id. Qed.

Lemma uint_of_int_id (n : Z) : 0 <= n < 2 ^ 32 -> uint_of_int n = n.
Proof. intros Hn. unfold uint_of_int. now apply Z.mod_small. Qed.

Section HeaderFacts.
Context {K : Kernel}.

Lemma array_set_in_range {A : Type} (a : list A) (i : Z) (v : A) :
  0 <= i < Z.of_nat (length a) ->
  array_set a i v = Some (<[Z.to_nat i := v]> a).
Proof.
  intros [Hlo Hhi]. unfold array_set.
  apply Z.leb_le in Hlo. apply Z.ltb_lt in Hhi.
  now rewrite Hlo, Hhi.
Qed.

Lemma array_get_in_range {A : Type} (a : list A) (i : Z) :
  0 <= i -> array_get a i = a !! Z.to_nat i.
Proof.
  intros Hlo. unfold array_get. apply Z.leb_le in Hlo. now rewrite Hlo.
Qed.

(** ** The duplicate scan *)

(** Inside the array the scan terminates with an answer. *)
Lemma duplicate_scan_defined (slots : list Intersection) (t : float) (n : nat) :
  (n <= length slots)%nat -> is_Some (duplicate_scan slots t n).
Proof.
  induction n as [|i IH]; intros Hn; simpl.
  - eauto.
  - destruct (lookup_lt_is_Some_2 slots i) as [h Hh]; [lia|].
    rewrite Hh. simpl.
    destruct (Float32.eqb (isect_t h) t); [eauto | apply IH; lia].
Qed.

(** It answers false when no scanned slot holds the distance... *)
Lemma duplicate_scan_fresh (slots : list Intersection) (t : float) (n : nat) :
  (n <= length slots)%nat ->
  (forall i h, (i < n)%nat -> slots !! i = Some h ->
               Float32.eqb (isect_t h) t = false) ->
  duplicate_scan slots t n = Some false.
Proof.
  induction n as [|i IH]; intros Hn Hfresh; simpl; [reflexivity|].
  destruct (lookup_lt_is_Some_2 slots i) as [h Hh]; [lia|].
  rewrite Hh. simpl.
  rewrite (Hfresh i h) by (assumption || lia).
  apply IH; [lia|].
  intros j hj Hj. apply Hfresh. lia.
Qed.

(** ... and true as soon as one of them does. *)
Lemma duplicate_scan_found (slots : list Intersection) (t : float) (n : nat)
    (i : nat) (h : Intersection) :
  (n <= length slots)%nat ->
  (i < n)%nat -> slots !! i = Some h -> Float32.eqb (isect_t h) t = true ->
  duplicate_scan slots t n = Some true.
Proof.
  induction n as [|k IH]; intros Hn Hi Hh Heq; simpl; [lia|].
  destruct (lookup_lt_is_Some_2 slots k) as [hk Hk]; [lia|].
  rewrite Hk. simpl.
  destruct (Float32.eqb (isect_t hk) t) eqn:Hhk; [reflexivity|].
  apply IH; [lia| |assumption|assumption].
  destruct (decide (i = k)) as [->|Hne]; [|lia].
  congruence.
Qed.

(** ** One call in reservoir mode *)

(** The number of iterations of the scan, for a buffer within its contract. *)
Lemma scan_length (local_isect : LocalIntersection) (max_hits : Z) :
  0 < max_hits -> buffer_ok local_isect max_hits ->
  let n := Z.to_nat
             (int_sub (Z.min max_hits (num_hits local_isect)) 1 + 1) in
  Z.of_nat n = Z.min max_hits (num_hits local_isect) /\
  (n <= length (hits local_isect))%nat.
Proof.
  intros Hmax (Hnum & Hcap & _). unfold INT_MAX in Hnum.
  rewrite int_sub_id by lia. cbv zeta. lia.
Qed.

(** A candidate that passes the geometric test and the duplicate scan:
    the whole effect of the call, by cases on the count and on the draw. *)
Lemma reservoir_step (kg : KernelGlobals) (local_isect : LocalIntersection)
    (P dir : float3) (time : float) (object prim prim_addr : Z) (tmax : float)
    (state max_hits : Z) (verts0 verts1 verts2 : float3) (u v t : float) :
  motion_triangle_vertices kg object prim time = (verts0, verts1, verts2) ->
  ray_triangle_intersect P dir tmax verts0 verts1 verts2 = Some (u, v, t) ->
  0 < max_hits ->
  buffer_ok local_isect max_hits ->
  fresh_distance local_isect max_hits t ->
  motion_triangle_intersect_local kg local_isect P dir time object prim
    prim_addr tmax (Some state) max_hits =
  let count := num_hits local_isect + 1 in
  let h := motion_triangle_hit t u v prim object in
  let n := normalize (cross (verts1 - verts0) (verts2 - verts0))%f3 in
  if count <=? max_hits then
    Some (false,
          {| num_hits := count;
             hits := <[Z.to_nat (count - 1) := h]> (hits local_isect);
             Ng := <[Z.to_nat (count - 1) := n]> (Ng local_isect) |},
          Some state)
  else
    let hit := (snd (lcg_step_uint state) mod 2 ^ 32) mod count in
    if hit >=? max_hits then
      Some (false, set_num_hits local_isect count,
            Some (fst (lcg_step_uint state)))
    else
      Some (false,
            {| num_hits := count;
               hits := <[Z.to_nat hit := h]> (hits local_isect);
               Ng := <[Z.to_nat hit := n]> (Ng local_isect) |},
            Some (fst (lcg_step_uint state))).
Proof.
  intros Hverts Hgeo Hmax Hok Hfresh.
  destruct (scan_length local_isect max_hits Hmax Hok) as [Hn Hle].
  destruct Hok as (Hnum & Hcap & HNg). unfold INT_MAX in Hnum.
  unfold motion_triangle_intersect_local.
  rewrite Hverts, Hgeo.
  destruct (Z.eqb_spec max_hits 0) as [?|_]; [lia|].
  rewrite duplicate_scan_fresh; [|exact Hle|].
  2:{ intros i h Hi Hh. apply (Hfresh (Z.of_nat i)); [lia|].
      now rewrite Nat2Z.id. }
  cbn [mbind option_bind set_num_hits num_hits hits Ng].
  rewrite int_add_id by lia. cbv zeta.
  destruct (Z.leb_spec (num_hits local_isect + 1) max_hits) as [Hin|Hout].
  - rewrite int_sub_id by lia.
    unfold record_intersection, set_num_hits. cbn [hits Ng num_hits].
    rewrite !array_set_in_range by lia. reflexivity.
  - destruct (lcg_step_uint state) as [state' r]. cbn [fst snd].
    rewrite uint_of_int_id by lia.
    destruct (Z.eqb_spec (num_hits local_isect + 1) 0) as [?|_]; [lia|].
    assert (Hr : 0 <= uint_of_int r mod (num_hits local_isect + 1)
                   < num_hits local_isect + 1)
      by (apply Z.mod_pos_bound; lia).
    unfold int_of_uint. rewrite int_wrap_id by lia.
    unfold uint_of_int in *.
    destruct (Z.geb_spec (r mod 2 ^ 32 mod (num_hits local_isect + 1))
                max_hits) as [Hskip|Hkeep]; [reflexivity|].
    unfold record_intersection, set_num_hits. cbn [hits Ng num_hits].
    rewrite !array_set_in_range by lia. reflexivity.
Qed.

(** The call is defined for every buffer within its contract: no access
    leaves the arrays and no division is by zero. *)
Lemma intersect_local_defined (kg : KernelGlobals)
    (local_isect : LocalIntersection) (P dir : float3) (time : float)
    (object prim prim_addr : Z) (tmax : float) (lcg_state : option Z)
    (max_hits : Z) :
  0 <= max_hits -> buffer_ok local_isect max_hits ->
  is_Some (motion_triangle_intersect_local kg local_isect P dir time object
             prim prim_addr tmax lcg_state max_hits).
Proof.
  intros Hmax Hok.
  unfold motion_triangle_intersect_local.
  destruct (motion_triangle_vertices kg object prim time)
    as [[verts0 verts1] verts2] eqn:Hverts.
  destruct (ray_triangle_intersect P dir tmax verts0 verts1 verts2)
    as [[[u v] t]|] eqn:Hgeo; [|eauto].
  destruct (Z.eqb_spec max_hits 0) as [?|Hne]; [eauto|].
  assert (Hpos : 0 < max_hits) by lia.
  destruct lcg_state as [state|].
  - destruct (scan_length local_isect max_hits Hpos Hok) as [_ Hle].
    destruct (duplicate_scan_defined (hits local_isect) t _ Hle)
      as [[|] Hscan].
    + rewrite Hscan. cbn. eauto.
    + pose proof (reservoir_step kg local_isect P dir time object prim
                    prim_addr tmax state max_hits verts0 verts1 verts2
                    u v t Hverts Hgeo Hpos Hok) as Hstep.
      unfold motion_triangle_intersect_local in Hstep.
      rewrite Hverts, Hgeo in Hstep.
      destruct (Z.eqb_spec max_hits 0) as [?|_]; [lia|].
      rewrite Hscan in Hstep. cbn [mbind option_bind] in Hstep.
      destruct Hok as (Hnum & Hcap & HNg). unfold INT_MAX in Hnum.
      rewrite Hscan. cbn [mbind option_bind].
      unfold set_num_hits, record_intersection. cbn [hits Ng num_hits].
      rewrite int_add_id by lia.
      destruct (Z.leb_spec (num_hits local_isect + 1) max_hits).
      * rewrite int_sub_id by lia.
        rewrite !array_set_in_range by lia. cbn. eauto.
      * destruct (lcg_step_uint state) as [state' r].
        rewrite uint_of_int_id by lia.
        destruct (Z.eqb_spec (num_hits local_isect + 1) 0); [lia|].
        assert (0 <= uint_of_int r mod (num_hits local_isect + 1)
                  < num_hits local_isect + 1)
          by (apply Z.mod_pos_bound; lia).
        unfold int_of_uint. rewrite int_wrap_id by lia.
        destruct (Z.geb_spec (uint_of_int r mod (num_hits local_isect + 1))
                    max_hits); [eauto|].
        rewrite !array_set_in_range by lia. cbn. eauto.
  - destruct Hok as (Hnum & Hcap & HNg).
    destruct (lookup_lt_is_Some_2 (hits local_isect) 0) as [h Hh]; [lia|].
    rewrite array_get_in_range by lia.
    change (Z.to_nat 0) with 0%nat. rewrite Hh.
    unfold set_num_hits, record_intersection. cbn [hits Ng num_hits].
    destruct (num_hits local_isect =? 0);
      cbn [mbind option_bind];
      [|destruct (Float32.gtb t (isect_t h)); [eauto|]];
      rewrite !array_set_in_range by lia; cbn; eauto.
Qed.

(** *** Claims on the reservoir mode *)

(** C1: with a random stream and max_hits > 0, a geometric hit that is no
    duplicate increments the count; if the incremented count is at most
    max_hits the record goes to slot count-1; otherwise an index in
    [0, count) is drawn from the stream, the candidate is dropped (false is
    returned, no slot is written) when the index is at least max_hits, and
    its record replaces the slot at the drawn index when it is smaller.
    The record written is the candidate's (t, u, v, prim, object,
    PRIMITIVE_MOTION_TRIANGLE) of lines 252-257, and the normal written
    beside it is normalize(cross(verts[1] - verts[0], verts[2] - verts[0]))
    of line 260. *)
Theorem reservoir_slot_choice (kg : KernelGlobals)
    (local_isect : LocalIntersection) (P dir : float3) (time : float)
    (object prim prim_addr : Z) (tmax : float) (state max_hits : Z)
    (verts0 verts1 verts2 : float3) (u v t : float) :
  motion_triangle_vertices kg object prim time = (verts0, verts1, verts2) ->
  ray_triangle_intersect P dir tmax verts0 verts1 verts2 = Some (u, v, t) ->
  0 < max_hits ->
  buffer_ok local_isect max_hits ->
  fresh_distance local_isect max_hits t ->
  let result :=
    motion_triangle_intersect_local kg local_isect P dir time object prim
      prim_addr tmax (Some state) max_hits in
  let count := num_hits local_isect + 1 in
  let h :=
    {| isect_t := t; isect_u := u; isect_v := v; isect_prim := prim;
       isect_object := object; isect_type := PRIMITIVE_MOTION_TRIANGLE |} in
  let n := normalize (cross (verts1 - verts0) (verts2 - verts0))%f3 in
  let state' := fst (lcg_step_uint state) in
  let index := (snd (lcg_step_uint state) mod 2 ^ 32) mod count in
  let written (slot : Z) :=
    {| num_hits := count;
       hits := <[Z.to_nat slot := h]> (hits local_isect);
       Ng := <[Z.to_nat slot := n]> (Ng local_isect) |} in
  (count <= max_hits ->
     result = Some (false, written (count - 1), Some state) /\
     hits (written (count - 1)) !! Z.to_nat (count - 1) = Some h) /\
  (max_hits < count ->
     0 <= index < count /\
     (max_hits <= index ->
        result =
        Some (false,
              {| num_hits := count; hits := hits local_isect;
                 Ng := Ng local_isect |},
              Some state')) /\
     (index < max_hits ->
        result = Some (false, written index, Some state') /\
        hits (written index) !! Z.to_nat index = Some h)).
Proof.
  intros Hverts Hgeo Hmax Hok Hfresh result count h n state' index written.
  pose proof (reservoir_step kg local_isect P dir time object prim prim_addr
                tmax state max_hits verts0 verts1 verts2 u v t
                Hverts Hgeo Hmax Hok Hfresh) as Hstep.
  cbv zeta in Hstep. unfold motion_triangle_hit in Hstep.
  fold result count h n state' index in Hstep.
  destruct Hok as (Hnum & Hcap & HNg).
  assert (Hindex : 0 <= index < count)
    by (apply Z.mod_pos_bound; unfold count; lia).
  split.
  - intros Hin. apply Z.leb_le in Hin as Hin'. rewrite Hin' in Hstep.
    split; [exact Hstep|].
    cbn [hits written]. apply list_lookup_insert_eq. unfold count in *. lia.
  - intros Hout. apply Z.leb_gt in Hout as Hout'. rewrite Hout' in Hstep.
    split; [exact Hindex|]. split.
    + intros Hskip. apply Z.geb_le in Hskip.
      now rewrite Hskip in Hstep.
    + intros Hkeep.
      destruct (Z.geb_spec index max_hits) as [?|_]; [lia|].
      split; [exact Hstep|].
      cbn [hits written]. apply list_lookup_insert_eq. lia.
Qed.

(** C6: with a random stream and max_hits > 0, a candidate whose distance
    equals the distance stored in one of the first min(max_hits, count)
    slots makes the call return false and change nothing: the buffer (count,
    records, normals) and the state of the random stream are as before. *)
Theorem duplicate_leaves_all_unchanged (kg : KernelGlobals)
    (local_isect : LocalIntersection) (P dir : float3) (time : float)
    (object prim prim_addr : Z) (tmax : float) (state max_hits : Z)
    (verts0 verts1 verts2 : float3) (u v t : float)
    (i : Z) (h : Intersection) :
  motion_triangle_vertices kg object prim time = (verts0, verts1, verts2) ->
  ray_triangle_intersect P dir tmax verts0 verts1 verts2 = Some (u, v, t) ->
  0 < max_hits ->
  buffer_ok local_isect max_hits ->
  0 <= i < Z.min max_hits (num_hits local_isect) ->
  hits local_isect !! Z.to_nat i = Some h ->
  Float32.eqb (isect_t h) t = true ->
  motion_triangle_intersect_local kg local_isect P dir time object prim
    prim_addr tmax (Some state) max_hits =
  Some (false, local_isect, Some state).
Proof.
  intros Hverts Hgeo Hmax Hok Hi Hh Heq.
  destruct (scan_length local_isect max_hits Hmax Hok) as [Hn Hle].
  unfold motion_triangle_intersect_local.
  rewrite Hverts, Hgeo.
  destruct (Z.eqb_spec max_hits 0) as [?|_]; [lia|].
  rewrite (duplicate_scan_found _ _ _ (Z.to_nat i) h Hle); try assumption.
  - reflexivity.
  - lia.
Qed.

(** C7: the call returns true exactly when the geometric test accepts and
    max_hits is 0, and then it leaves the buffer (and the stream) as they
    were; a geometric reject, a duplicate, a reservoir discard and a
    recorded hit all return false. *)
Theorem true_only_for_existence_query (kg : KernelGlobals)
    (local_isect : LocalIntersection) (P dir : float3) (time : float)
    (object prim prim_addr : Z) (tmax : float) (lcg_state : option Z)
    (max_hits : Z) (verts0 verts1 verts2 : float3) :
  motion_triangle_vertices kg object prim time = (verts0, verts1, verts2) ->
  let geo := ray_triangle_intersect P dir tmax verts0 verts1 verts2 in
  let result :=
    motion_triangle_intersect_local kg local_isect P dir time object prim
      prim_addr tmax lcg_state max_hits in
  (is_Some geo -> max_hits = 0 ->
     result = Some (true, local_isect, lcg_state)) /\
  (geo = None -> result = Some (false, local_isect, lcg_state)) /\
  (forall stop local_isect' lcg_state',
     result = Some (stop, local_isect', lcg_state') ->
     (stop = true <-> is_Some geo /\ max_hits = 0)) /\
  (0 <= max_hits -> buffer_ok local_isect max_hits -> is_Some result).
Proof.
  intros Hverts geo result.
  assert (Hresult : result =
            match geo with
            | None => Some (false, local_isect, lcg_state)
            | Some _ =>
                if max_hits =? 0 then Some (true, local_isect, lcg_state)
                else result
            end).
  { unfold result, motion_triangle_intersect_local, geo. rewrite Hverts.
    destruct (ray_triangle_intersect P dir tmax verts0 verts1 verts2)
      as [[[u v] t]|]; [|reflexivity].
    now destruct (max_hits =? 0). }
  split; [|split; [|split]].
  - intros [g Hg] ->. rewrite Hresult, Hg. reflexivity.
  - intros Hg. rewrite Hresult, Hg. reflexivity.
  - intros stop local_isect' lcg_state' Hreturn. split.
    + intros ->. clear Hresult.
      unfold result, motion_triangle_intersect_local in Hreturn.
      rewrite Hverts in Hreturn. fold geo in Hreturn.
      destruct geo as [[[u v] t]|]; [|discriminate].
      split; [eauto|].
      destruct (Z.eqb_spec max_hits 0) as [?|_]; [assumption|].
      repeat (case_match || simplify_option_eq).
    + intros [[g Hg] ->]. rewrite Hresult, Hg in Hreturn.
      cbn in Hreturn. congruence.
  - intros Hmax Hok. now apply intersect_local_defined.
Qed.

(** C10: in reservoir mode, when the draw discards a candidate that is no
    duplicate, the count stays incremented while the stored records and
    normals are as before; and whatever the draw, every geometric hit that
    is no duplicate adds one to the count. *)
Theorem discard_still_counts (kg : KernelGlobals)
    (local_isect : LocalIntersection) (P dir : float3) (time : float)
    (object prim prim_addr : Z) (tmax : float) (state max_hits : Z)
    (verts0 verts1 verts2 : float3) (u v t : float) :
  motion_triangle_vertices kg object prim time = (verts0, verts1, verts2) ->
  ray_triangle_intersect P dir tmax verts0 verts1 verts2 = Some (u, v, t) ->
  0 < max_hits ->
  buffer_ok local_isect max_hits ->
  fresh_distance local_isect max_hits t ->
  let result :=
    motion_triangle_intersect_local kg local_isect P dir time object prim
      prim_addr tmax (Some state) max_hits in
  let count := num_hits local_isect + 1 in
  let index := (snd (lcg_step_uint state) mod 2 ^ 32) mod count in
  (max_hits < count -> max_hits <= index ->
     exists local_isect',
       result = Some (false, local_isect', Some (fst (lcg_step_uint state))) /\
       num_hits local_isect' = num_hits local_isect + 1 /\
       hits local_isect' = hits local_isect /\
       Ng local_isect' = Ng local_isect) /\
  (exists local_isect' lcg_state',
     result = Some (false, local_isect', lcg_state') /\
     num_hits local_isect' = num_hits local_isect + 1).
Proof.
  intros Hverts Hgeo Hmax Hok Hfresh result count index.
  pose proof (reservoir_step kg local_isect P dir time object prim prim_addr
                tmax state max_hits verts0 verts1 verts2 u v t
                Hverts Hgeo Hmax Hok Hfresh) as Hstep.
  cbv zeta in Hstep. fold result count index in Hstep.
  split.
  - intros Hout Hskip.
    apply Z.leb_gt in Hout. apply Z.geb_le in Hskip.
    rewrite Hout, Hskip in Hstep.
    eexists. split; [exact Hstep|]. now cbn.
  - destruct (count <=? max_hits); [|destruct (index >=? max_hits)];
      do 2 eexists; (split; [exact Hstep|]); reflexivity.
Qed.

(** ** The refiner *)

(** C4, as the code has it: with SD_OBJECT_TRANSFORM_APPLIED set,
    motion_triangle_refine skips the two changes of coordinate space and the
    zero-distance test, not the refinement: built with
    __INTERSECTION_REFINE__ it returns Q + D * rt, where Q = P + D * t is
    the naive point and rt the distance from Q to the plane of the
    triangle along D; only built without __INTERSECTION_REFINE__ does it
    return the naive point P + D * t. *)
Theorem refine_with_transform_applied (cfg : Config) (kg : KernelGlobals)
    (sd : ShaderData) (P D : float3) (t : float) (isect_object isect_prim : Z)
    (verts0 verts1 verts2 : float3) :
  transform_applied sd = true ->
  motion_triangle_refine cfg kg sd P D t isect_object isect_prim
    (verts0, verts1, verts2) =
  let Q := (P + D * t)%f3 in
  let e1 := (verts0 - verts2)%f3 in
  let e2 := (verts1 - verts2)%f3 in
  let rt :=
    Float32.mul (dot e2 (cross (Q - verts2) e1))
      (Float32.div Float32.one (dot (cross D e2) e1)) in
  if INTERSECTION_REFINE cfg then (Q + D * rt)%f3 else Q.
Proof.
  intros Happlied.
  unfold motion_triangle_refine, refine_position.
  rewrite Happlied. cbn [negb].
  reflexivity.
Qed.

(** C9, as the code has it: built with __INTERSECTION_REFINE__, a call of
    motion_triangle_refine with t == 0 on an object whose transform is not
    applied (SD_OBJECT_TRANSFORM_APPLIED clear) returns P unchanged, before
    any transform or normalization. *)
Theorem refine_zero_distance (cfg : Config) (kg : KernelGlobals)
    (sd : ShaderData) (P D : float3) (t : float) (isect_object isect_prim : Z)
    (verts : float3 * float3 * float3) :
  INTERSECTION_REFINE cfg = true ->
  transform_applied sd = false ->
  Float32.eqb t Float32.zero = true ->
  motion_triangle_refine cfg kg sd P D t isect_object isect_prim verts = P.
Proof.
  intros Hrefine Hinstanced Hzero.
  unfold motion_triangle_refine.
  now rewrite Hrefine, Hinstanced, Hzero.
Qed.

(** C8: where the acceleration structure reports world-space distances
    (__KERNEL_GPU_RAYTRACING__), motion_triangle_refine_local returns for
    every input what motion_triangle_refine returns on the same
    arguments. *)
Theorem refine_local_is_refine_on_gpu_raytracing (cfg : Config)
    (kg : KernelGlobals) (sd : ShaderData) (P D : float3) (t : float)
    (isect_object isect_prim : Z) (verts : float3 * float3 * float3) :
  KERNEL_GPU_RAYTRACING cfg = true ->
  motion_triangle_refine_local cfg kg sd P D t isect_object isect_prim verts =
  motion_triangle_refine cfg kg sd P D t isect_object isect_prim verts.
Proof.
  intros Hgpu. unfold motion_triangle_refine_local. now rewrite Hgpu.
Qed.

(** ** The nearest-hit intersector *)


(** *** One call seen from a candidate *)

Lemma reservoir_candidate_step (kg : KernelGlobals)
    (local_isect : LocalIntersection) (c : Candidate) (state max_hits : Z)
    (u v t : float) :
  candidate_hit kg c = Some (u, v, t) ->
  0 < max_hits ->
  buffer_ok local_isect max_hits ->
  fresh_distance local_isect max_hits t ->
  intersect_candidate kg local_isect c (Some state) max_hits =
  let count := num_hits local_isect + 1 in
  let h := motion_triangle_hit t u v (cand_prim c) (cand_object c) in
  let n := candidate_Ng kg c in
  if count <=? max_hits then
    Some (false,
          {| num_hits := count;
             hits := <[Z.to_nat (count - 1) := h]> (hits local_isect);
             Ng := <[Z.to_nat (count - 1) := n]> (Ng local_isect) |},
          Some state)
  else
    let hit := (snd (lcg_step_uint state) mod 2 ^ 32) mod count in
    if hit >=? max_hits then
      Some (false, set_num_hits local_isect count,
            Some (fst (lcg_step_uint state)))
    else
      Some (false,
            {| num_hits := count;
               hits := <[Z.to_nat hit := h]> (hits local_isect);
               Ng := <[Z.to_nat hit := n]> (Ng local_isect) |},
            Some (fst (lcg_step_uint state))).
Proof.
  unfold candidate_hit, candidate_Ng, intersect_candidate.
  destruct (motion_triangle_vertices kg (cand_object c) (cand_prim c)
              (cand_time c)) as [[verts0 verts1] verts2] eqn:Hverts.
  intros Hgeo Hmax Hok Hfresh.
  now apply reservoir_step.
Qed.

(** A call without a random stream that passes the geometric test: it
    rejects exactly when the buffer is not empty and [t > hits[0].t], and
    otherwise writes slot 0 and sets the count to 1. *)
Lemma closest_candidate_step (kg : KernelGlobals)
    (local_isect : LocalIntersection) (c : Candidate) (max_hits : Z)
    (u v t : float) (h0 : Intersection) :
  candidate_hit kg c = Some (u, v, t) ->
  max_hits <> 0 ->
  hits local_isect !! 0%nat = Some h0 ->
  (0 < length (Ng local_isect))%nat ->
  intersect_candidate kg local_isect c None max_hits =
  if negb (num_hits local_isect =? 0) && Float32.gtb t (isect_t h0) then
    Some (false, local_isect, None)
  else
    Some (false,
          {| num_hits := 1;
             hits := <[0%nat :=
                       motion_triangle_hit t u v (cand_prim c) (cand_object c)]>
                     (hits local_isect);
             Ng := <[0%nat := candidate_Ng kg c]> (Ng local_isect) |},
          None).
Proof.
  unfold candidate_hit, candidate_Ng, intersect_candidate,
    motion_triangle_intersect_local.
  destruct (motion_triangle_vertices kg (cand_object c) (cand_prim c)
              (cand_time c)) as [[verts0 verts1] verts2] eqn:Hverts.
  intros Hgeo Hmax Hh0 HNg. rewrite Hgeo.
  destruct (Z.eqb_spec max_hits 0) as [?|_]; [contradiction|].
  apply lookup_lt_Some in Hh0 as Hhits.
  rewrite array_get_in_range by lia.
  change (Z.to_nat 0) with 0%nat. rewrite Hh0.
  unfold set_num_hits, record_intersection. cbn [hits Ng num_hits].
  destruct (num_hits local_isect =? 0); cbn [mbind option_bind negb andb];
    [|destruct (Float32.gtb t (isect_t h0)); [reflexivity|]];
    rewrite !array_set_in_range by lia; reflexivity.
Qed.

(** *** Claims on whole runs *)

(** Decide the integer tests of the goal, which are closed once the draws of
    the stream are known, then move on to the next call of the run. *)
Ltac decide_tests :=
  repeat match goal with
    | |- context [?a <=? ?b] =>
        let r := eval vm_compute in (a <=? b) in
        match r with
        | true => change (a <=? b) with true
        | false => change (a <=? b) with false
        end
    | |- context [?a >=? ?b] =>
        let r := eval vm_compute in (a >=? b) in
        match r with
        | true => change (a >=? b) with true
        | false => change (a >=? b) with false
        end
    end.

Ltac next_candidate Hdraw :=
  cbv zeta; cbn [num_hits set_num_hits]; rewrite ?Hdraw; decide_tests;
  cbn [mbind option_bind feed_candidates].

(** C2, as the code has it: with max_hits = 2 and a stream whose every draw
    is 0, four accepted candidates with pairwise distinct distances, offered
    to an empty buffer, leave the count at 4, candidate 3 in slot 0 and
    candidate 1 in slot 1 (candidates 2 and 3 both draw index 0 and replace
    slot 0 in turn). *)
Theorem zero_stream_keeps_last_and_second (kg : KernelGlobals)
    (local_isect : LocalIntersection) (state : Z) (c0 c1 c2 c3 : Candidate)
    (u0 v0 t0 u1 v1 t1 u2 v2 t2 u3 v3 t3 : float) :
  (forall s, snd (lcg_step_uint s) = 0) ->
  num_hits local_isect = 0 ->
  (2 <= length (hits local_isect))%nat ->
  length (Ng local_isect) = length (hits local_isect) ->
  candidate_hit kg c0 = Some (u0, v0, t0) ->
  candidate_hit kg c1 = Some (u1, v1, t1) ->
  candidate_hit kg c2 = Some (u2, v2, t2) ->
  candidate_hit kg c3 = Some (u3, v3, t3) ->
  Float32.eqb t0 t1 = false -> Float32.eqb t0 t2 = false ->
  Float32.eqb t0 t3 = false -> Float32.eqb t1 t2 = false ->
  Float32.eqb t1 t3 = false -> Float32.eqb t2 t3 = false ->
  exists final lcg_state',
    feed_candidates kg local_isect (Some state) 2 [c0; c1; c2; c3] =
      Some (false, final, lcg_state') /\
    num_hits final = 4 /\
    hits final !! 0%nat =
      Some (motion_triangle_hit t3 u3 v3 (cand_prim c3) (cand_object c3)) /\
    hits final !! 1%nat =
      Some (motion_triangle_hit t1 u1 v1 (cand_prim c1) (cand_object c1)) /\
    Ng final !! 0%nat = Some (candidate_Ng kg c3) /\
    Ng final !! 1%nat = Some (candidate_Ng kg c1) /\
    drop 2 (hits final) = drop 2 (hits local_isect) /\
    drop 2 (Ng final) = drop 2 (Ng local_isect).
Proof.
  intros Hzero Hnum Hcap HNg Hc0 Hc1 Hc2 Hc3 H01 H02 H03 H12 H13 H23.
  destruct local_isect as [n slots normals]. cbn in Hnum, Hcap, HNg. subst n.
  destruct slots as [|s0 [|s1 slots]]; cbn in Hcap; try lia.
  destruct normals as [|n0 [|n1 normals]]; cbn in HNg; try lia.
  assert (Hok : forall k a b c d,
            0 <= k < 4 ->
            buffer_ok {| num_hits := k; hits := a :: b :: slots;
                         Ng := c :: d :: normals |} 2).
  { intros k a b c d Hk. unfold buffer_ok, INT_MAX. cbn. lia. }
  assert (Hfresh : forall k a b c d t,
            (0 < k -> Float32.eqb (isect_t a) t = false) ->
            (1 < k -> Float32.eqb (isect_t b) t = false) ->
            fresh_distance {| num_hits := k; hits := a :: b :: slots;
                              Ng := c :: d :: normals |} 2 t).
  { intros k a b c d t Ha Hb i h Hi Hh. cbn in Hi, Hh.
    assert (Hcase : i = 0 \/ i = 1) by lia.
    destruct Hcase as [-> | ->]; cbn in Hh; injection Hh as <-;
      [apply Ha | apply Hb]; lia. }
  cbn [feed_candidates].
  rewrite (reservoir_candidate_step _ _ c0 _ _ u0 v0 t0 Hc0);
    [|lia|apply Hok; lia|apply Hfresh; lia].
  next_candidate Hzero.
  rewrite (reservoir_candidate_step _ _ c1 _ _ u1 v1 t1 Hc1);
    [|lia|apply Hok; lia|apply Hfresh; intros; (assumption || lia)].
  next_candidate Hzero.
  rewrite (reservoir_candidate_step _ _ c2 _ _ u2 v2 t2 Hc2);
    [|lia|apply Hok; lia|apply Hfresh; intros; assumption].
  next_candidate Hzero.
  rewrite (reservoir_candidate_step _ _ c3 _ _ u3 v3 t3 Hc3);
    [|lia|apply Hok; lia|apply Hfresh; intros; assumption].
  next_candidate Hzero.
  do 2 eexists. repeat split.
Qed.

(** C3, as the code has it: without a random stream and with max_hits > 0,
    a geometrically accepted candidate is rejected (false is returned, the
    buffer is unchanged) whenever the buffer is not empty and slot 0 holds
    a distance strictly smaller than the candidate's; otherwise (an empty
    buffer, or a candidate that is nearer or just as far) its record
    overwrites slot 0 and the count is set to 1.  Candidates at distances
    5.0, 3.0 and 7.0 offered to an empty buffer leave exactly one stored
    hit, the one at distance 3.0. *)
Theorem closest_only_keeps_strictly_nearer (kg : KernelGlobals)
    (local_isect : LocalIntersection) (max_hits : Z) (h0 : Intersection) :
  0 < max_hits ->
  hits local_isect !! 0%nat = Some h0 ->
  (0 < length (Ng local_isect))%nat ->
  let written (c : Candidate) (u v t : float) :=
    {| num_hits := 1;
       hits := <[0%nat :=
                 motion_triangle_hit t u v (cand_prim c) (cand_object c)]>
               (hits local_isect);
       Ng := <[0%nat := candidate_Ng kg c]> (Ng local_isect) |} in
  (forall c u v t,
     candidate_hit kg c = Some (u, v, t) ->
     num_hits local_isect <> 0 ->
     Float32.ltb (isect_t h0) t = true ->
     intersect_candidate kg local_isect c None max_hits =
     Some (false, local_isect, None)) /\
  (forall c u v t,
     candidate_hit kg c = Some (u, v, t) ->
     num_hits local_isect = 0 \/ Float32.ltb (isect_t h0) t = false ->
     intersect_candidate kg local_isect c None max_hits =
     Some (false, written c u v t, None)) /\
  (forall c1 c2 c3 u1 v1 u2 v2 u3 v3,
     num_hits local_isect = 0 ->
     candidate_hit kg c1 = Some (u1, v1, Float32.of_Z 5) ->
     candidate_hit kg c2 = Some (u2, v2, Float32.of_Z 3) ->
     candidate_hit kg c3 = Some (u3, v3, Float32.of_Z 7) ->
     feed_candidates kg local_isect None max_hits [c1; c2; c3] =
     Some (false, written c2 u2 v2 (Float32.of_Z 3), None)).
Proof.
  intros Hmax Hh0 HNg written.
  assert (Hne : max_hits <> 0) by lia.
  split; [|split].
  - intros c u v t Hc Hnum Hlt.
    rewrite (closest_candidate_step kg local_isect c max_hits u v t h0)
      by assumption.
    destruct (Z.eqb_spec (num_hits local_isect) 0) as [?|_]; [contradiction|].
    unfold Float32.gtb. unfold Float32.ltb in Hlt. now rewrite Hlt.
  - intros c u v t Hc Hcase.
    rewrite (closest_candidate_step kg local_isect c max_hits u v t h0)
      by assumption.
    destruct Hcase as [Hnum|Hge].
    + apply Z.eqb_eq in Hnum. now rewrite Hnum.
    + unfold Float32.gtb. unfold Float32.ltb in Hge. rewrite Hge.
      now rewrite andb_false_r.
  - intros c1 c2 c3 u1 v1 u2 v2 u3 v3 Hnum Hc1 Hc2 Hc3.
    apply lookup_lt_Some in Hh0 as Hhits.
    cbn [feed_candidates].
    rewrite (closest_candidate_step kg local_isect c1 max_hits _ _ _ h0
               Hc1 Hne Hh0 HNg).
    apply Z.eqb_eq in Hnum. rewrite Hnum.
    cbn [negb andb mbind option_bind].
    erewrite (closest_candidate_step kg _ c2 max_hits _ _ _ _ Hc2 Hne);
      [|cbn [hits]; now apply list_lookup_insert_eq
       |cbn [Ng]; now rewrite length_insert].
    cbn [num_hits isect_t motion_triangle_hit Z.eqb negb andb].
    change (Float32.gtb (Float32.of_Z 3) (Float32.of_Z 5)) with false.
    cbn [mbind option_bind hits Ng].
    erewrite (closest_candidate_step kg _ c3 max_hits _ _ _ _ Hc3 Hne);
      [|cbn [hits]; apply list_lookup_insert_eq; now rewrite length_insert
       |cbn [Ng]; now rewrite !length_insert].
    cbn [num_hits isect_t motion_triangle_hit Z.eqb negb andb].
    change (Float32.gtb (Float32.of_Z 7) (Float32.of_Z 3)) with true.
    cbn [mbind option_bind].
    unfold written. now rewrite !list_insert_insert_eq.
Qed.

(** ** Further properties of the header *)

(** *** The two refiners *)

(** X1: on an object whose vertices have the transform applied, and on every
    object in a build without __INTERSECTION_REFINE__, the object-space
    refiner returns what the world-space refiner returns, on every
    backend: the two differ only in how they enter object space. *)
Theorem refiners_agree_without_instancing (cfg : Config) (kg : KernelGlobals)
    (sd : ShaderData) (P D : float3) (t : float) (isect_object isect_prim : Z)
    (verts : float3 * float3 * float3) :
  transform_applied sd = true \/ INTERSECTION_REFINE cfg = false ->
  motion_triangle_refine_local cfg kg sd P D t isect_object isect_prim verts =
  motion_triangle_refine cfg kg sd P D t isect_object isect_prim verts.
Proof.
  intros Hcase.
  unfold motion_triangle_refine_local, motion_triangle_refine.
  destruct (KERNEL_GPU_RAYTRACING cfg); [reflexivity|].
  destruct Hcase as [Happlied|Hnaive].
  - now rewrite Happlied.
  - now rewrite Hnaive.
Qed.

(** *** One call, whatever the mode *)

Lemma candidate_miss (kg : KernelGlobals) (local_isect : LocalIntersection)
    (c : Candidate) (lcg_state : option Z) (max_hits : Z) :
  candidate_hit kg c = None ->
  intersect_candidate kg local_isect c lcg_state max_hits =
  Some (false, local_isect, lcg_state).
Proof.
  unfold candidate_hit, intersect_candidate, motion_triangle_intersect_local.
  destruct (motion_triangle_vertices kg (cand_object c) (cand_prim c)
              (cand_time c)) as [[verts0 verts1] verts2].
  now intros ->.
Qed.

Lemma candidate_existence (kg : KernelGlobals)
    (local_isect : LocalIntersection) (c : Candidate) (lcg_state : option Z)
    (u v t : float) :
  candidate_hit kg c = Some (u, v, t) ->
  intersect_candidate kg local_isect c lcg_state 0 =
  Some (true, local_isect, lcg_state).
Proof.
  unfold candidate_hit, intersect_candidate, motion_triangle_intersect_local.
  destruct (motion_triangle_vertices kg (cand_object c) (cand_prim c)
              (cand_time c)) as [[verts0 verts1] verts2].
  now intros ->.
Qed.

(** An answer "no duplicate" of the scan means that no visited slot holds
    the distance. *)
Lemma duplicate_scan_false (slots : list Intersection) (t : float) (n : nat) :
  duplicate_scan slots t n = Some false ->
  forall i h, (i < n)%nat -> slots !! i = Some h ->
              Float32.eqb (isect_t h) t = false.
Proof.
  induction n as [|k IH]; intros Hscan i h Hi Hh; [lia|].
  simpl in Hscan.
  destruct (slots !! k) as [hk|] eqn:Hk; [|discriminate]. simpl in Hscan.
  destruct (Float32.eqb (isect_t hk) t) eqn:Hhk; [discriminate|].
  destruct (decide (i = k)) as [->|Hne].
  - congruence.
  - apply (IH Hscan i h); [lia|assumption].
Qed.

(** A call with a random stream on a buffer within its contract either
    leaves everything as it was (a miss or a duplicate), or the candidate
    is a fresh hit and one of the three outcomes of [reservoir_step]
    applies. *)
Lemma reservoir_call_cases (kg : KernelGlobals)
    (local_isect : LocalIntersection) (c : Candidate) (state max_hits : Z) :
  0 < max_hits ->
  buffer_ok local_isect max_hits ->
  let result := intersect_candidate kg local_isect c (Some state) max_hits in
  let count := num_hits local_isect + 1 in
  result = Some (false, local_isect, Some state) \/
  exists u v t,
    candidate_hit kg c = Some (u, v, t) /\
    fresh_distance local_isect max_hits t /\
    let written (slot : Z) :=
      {| num_hits := count;
         hits := <[Z.to_nat slot := candidate_record c u v t]>
                   (hits local_isect);
         Ng := <[Z.to_nat slot := candidate_Ng kg c]> (Ng local_isect) |} in
    (count <= max_hits /\
     result = Some (false, written (count - 1), Some state)) \/
    (max_hits < count /\
     exists slot,
       0 <= slot < count /\
       slot = (snd (lcg_step_uint state) mod 2 ^ 32) mod count /\
       ((max_hits <= slot /\
         result = Some (false, set_num_hits local_isect count,
                        Some (fst (lcg_step_uint state)))) \/
        (slot < max_hits /\
         result = Some (false, written slot,
                        Some (fst (lcg_step_uint state)))))).
Proof.
  intros Hmax Hok result count.
  destruct (candidate_hit kg c) as [[[u v] t]|] eqn:Hhit;
    [|left; now apply candidate_miss].
  destruct (scan_length local_isect max_hits Hmax Hok) as [Hn Hle].
  destruct (duplicate_scan_defined (hits local_isect) t _ Hle)
    as [[|] Hscan].
  - left. unfold result, intersect_candidate, motion_triangle_intersect_local.
    unfold candidate_hit in Hhit.
    destruct (motion_triangle_vertices kg (cand_object c) (cand_prim c)
                (cand_time c)) as [[verts0 verts1] verts2].
    rewrite Hhit.
    destruct (Z.eqb_spec max_hits 0) as [?|_]; [lia|].
    now rewrite Hscan.
  - right. exists u, v, t.
    assert (Hfresh : fresh_distance local_isect max_hits t).
    { intros i h Hi Hh.
      apply (duplicate_scan_false _ _ _ Hscan (Z.to_nat i) h); [lia|exact Hh]. }
    split; [reflexivity|]. split; [exact Hfresh|].
    pose proof (reservoir_candidate_step kg local_isect c state max_hits
                  u v t Hhit Hmax Hok Hfresh) as Hstep.
    cbv zeta in Hstep. fold result count in Hstep.
    destruct Hok as (Hnum & _).
    destruct (Z.leb_spec count max_hits) as [Hin|Hout].
    + left. split; [exact Hin | exact Hstep].
    + right. split; [exact Hout|]. eexists. split; [|split; [reflexivity|]].
      * apply Z.mod_pos_bound. unfold count. lia.
      * destruct (Z.geb_spec ((snd (lcg_step_uint state) mod 2 ^ 32)
                                mod count) max_hits) as [Hskip|Hkeep].
        -- left. split; [lia | exact Hstep].
        -- right. split; [lia | exact Hstep].
Qed.

(** X2: a call of motion_triangle_intersect_local on a buffer within its
    contract (0 <= max_hits) returns, keeps the length of both arrays,
    leaves every slot at index max_hits and beyond as it was, and writes at
    most one slot of the records, and the same slot of the normals. *)
Theorem intersect_local_writes_one_slot_below_max_hits (kg : KernelGlobals)
    (local_isect : LocalIntersection) (c : Candidate) (lcg_state : option Z)
    (max_hits : Z) :
  0 <= max_hits ->
  buffer_ok local_isect max_hits ->
  exists stop local_isect' lcg_state',
    intersect_candidate kg local_isect c lcg_state max_hits =
      Some (stop, local_isect', lcg_state') /\
    length (hits local_isect') = length (hits local_isect) /\
    length (Ng local_isect') = length (Ng local_isect) /\
    (forall j, (Z.to_nat max_hits <= j)%nat ->
       hits local_isect' !! j = hits local_isect !! j /\
       Ng local_isect' !! j = Ng local_isect !! j) /\
    (exists slot, forall j, j <> slot ->
       hits local_isect' !! j = hits local_isect !! j /\
       Ng local_isect' !! j = Ng local_isect !! j).
Proof.
  intros Hmax Hok.
  set (frame := fun local_isect' : LocalIntersection =>
         length (hits local_isect') = length (hits local_isect) /\
         length (Ng local_isect') = length (Ng local_isect) /\
         (forall j, (Z.to_nat max_hits <= j)%nat ->
            hits local_isect' !! j = hits local_isect !! j /\
            Ng local_isect' !! j = Ng local_isect !! j) /\
         (exists slot, forall j, j <> slot ->
            hits local_isect' !! j = hits local_isect !! j /\
            Ng local_isect' !! j = Ng local_isect !! j)).
  assert (Hsame : forall n, frame (set_num_hits local_isect n)).
  { intros n. unfold frame. cbn [set_num_hits hits Ng].
    repeat split. exists 0%nat. now intros. }
  assert (Hsame' : frame local_isect).
  { unfold frame. repeat split. exists 0%nat. now intros. }
  assert (Hwritten : forall count (slot : Z) h n,
            0 <= slot < max_hits ->
            frame {| num_hits := count;
                     hits := <[Z.to_nat slot := h]> (hits local_isect);
                     Ng := <[Z.to_nat slot := n]> (Ng local_isect) |}).
  { intros count slot h n Hslot. unfold frame. cbn [hits Ng].
    rewrite !length_insert.
    split; [reflexivity|]. split; [reflexivity|]. split.
    - intros j Hj. now rewrite !list_lookup_insert_ne by lia.
    - exists (Z.to_nat slot). intros j Hj.
      now rewrite !list_lookup_insert_ne by congruence. }
  enough (Hgoal : exists stop local_isect' lcg_state',
            intersect_candidate kg local_isect c lcg_state max_hits =
              Some (stop, local_isect', lcg_state') /\ frame local_isect')
    by exact Hgoal.
  destruct (candidate_hit kg c) as [[[u v] t]|] eqn:Hhit;
    [|rewrite candidate_miss by assumption; eauto 6].
  destruct (Z.eqb_spec max_hits 0) as [->|Hne];
    [rewrite (candidate_existence _ _ _ _ u v t) by assumption; eauto 6|].
  assert (Hpos : 0 < max_hits) by lia.
  destruct lcg_state as [state|].
  - destruct (reservoir_call_cases kg local_isect c state max_hits Hpos Hok)
      as [Hrun | (u' & v' & t' & _ & _ & [[Hin Hrun] |
                    (Hout & slot & Hslot & _ & [[Hskip Hrun]|[Hkeep Hrun]])])];
      rewrite Hrun; do 3 eexists; (split; [reflexivity|]);
      first [exact Hsame' | apply Hsame | apply Hwritten];
      destruct Hok as (Hnum & _); lia.
  - destruct Hok as (_ & Hcap & HNg).
    destruct (lookup_lt_is_Some_2 (hits local_isect) 0) as [h0 Hh0]; [lia|].
    rewrite (closest_candidate_step kg local_isect c max_hits u v t h0)
      by (assumption || lia).
    destruct (negb (num_hits local_isect =? 0) && Float32.gtb t (isect_t h0));
      do 3 eexists; (split; [reflexivity|]);
      [exact Hsame' | apply (Hwritten 1 0); lia].
Qed.

(** Writing a fresh distance into the slot that the code chooses keeps the
    distances of the slots in use pairwise different. *)
Lemma distinct_after_write (local_isect : LocalIntersection) (c : Candidate)
    (max_hits slot : Z) (u v t : float) (n : list float3) :
  buffer_ok local_isect max_hits ->
  distinct_distances local_isect max_hits ->
  fresh_distance local_isect max_hits t ->
  0 <= slot < Z.min max_hits (num_hits local_isect + 1) ->
  (num_hits local_isect < max_hits -> slot = num_hits local_isect) ->
  distinct_distances
    {| num_hits := num_hits local_isect + 1;
       hits := <[Z.to_nat slot := candidate_record c u v t]>
                 (hits local_isect);
       Ng := n |} max_hits.
Proof.
  intros Hok Hdistinct Hfresh Hslot Hlast i j hi hj Hi Hj Hij Hhi Hhj.
  cbn [num_hits hits] in *.
  assert (Hold : forall k,
            0 <= k < Z.min max_hits (num_hits local_isect + 1) ->
            k <> slot -> 0 <= k < Z.min max_hits (num_hits local_isect)).
  { intros k Hk Hne. destruct Hok as (Hnum & _). lia. }
  destruct (decide (i = slot)) as [->|Hi'];
    destruct (decide (j = slot)) as [->|Hj']; [contradiction| | |].
  - rewrite list_lookup_insert_ne in Hhj by lia.
    apply lookup_lt_Some in Hhi as Hlen. rewrite length_insert in Hlen.
    rewrite list_lookup_insert_eq in Hhi by exact Hlen.
    injection Hhi as <-. cbn [candidate_record motion_triangle_hit isect_t].
    rewrite eqb_sym. apply (Hfresh j hj); [apply Hold; lia | exact Hhj].
  - rewrite list_lookup_insert_ne in Hhi by lia.
    apply lookup_lt_Some in Hhj as Hlen. rewrite length_insert in Hlen.
    rewrite list_lookup_insert_eq in Hhj by exact Hlen.
    injection Hhj as <-. cbn [candidate_record motion_triangle_hit isect_t].
    apply (Hfresh i hi); [apply Hold; lia | exact Hhi].
  - rewrite list_lookup_insert_ne in Hhi, Hhj by lia.
    apply (Hdistinct i j hi hj); try assumption; apply Hold; lia.
Qed.

(** What every call with a random stream does to a buffer within its
    contract. *)
Lemma reservoir_call_summary (kg : KernelGlobals)
    (local_isect : LocalIntersection) (c : Candidate) (state max_hits : Z) :
  0 < max_hits ->
  buffer_ok local_isect max_hits ->
  exists local_isect' state',
    intersect_candidate kg local_isect c (Some state) max_hits =
      Some (false, local_isect', Some state') /\
    length (hits local_isect') = length (hits local_isect) /\
    length (Ng local_isect') = length (Ng local_isect) /\
    (num_hits local_isect' = num_hits local_isect \/
     num_hits local_isect' = num_hits local_isect + 1) /\
    (distinct_distances local_isect max_hits ->
     distinct_distances local_isect' max_hits).
Proof.
  intros Hpos Hok.
  destruct (reservoir_call_cases kg local_isect c state max_hits Hpos Hok)
    as [Hrun | (u & v & t & _ & Hfresh & [[Hin Hrun] |
                  (Hout & slot & Hslot & _ & [[Hskip Hrun]|[Hkeep Hrun]])])];
    rewrite Hrun; do 2 eexists; (split; [reflexivity|]);
    cbn [set_num_hits hits Ng num_hits]; rewrite ?length_insert;
    (split; [reflexivity|]); (split; [reflexivity|]);
    (split; [lia || (now left) || (now right)|]); intros Hdistinct.
  - exact Hdistinct.
  - destruct Hok as (Hnum & Hrest).
    apply distinct_after_write; try assumption; (split; assumption) || lia.
  - intros i j hi hj Hi Hj. cbn [num_hits hits] in *.
    apply Hdistinct; lia.
  - apply distinct_after_write; try assumption; lia.
Qed.

(** X3: a call on a buffer within its contract keeps the invariant of
    duplicate suppression: if the slots in use held pairwise different
    distances before the call, they do after it, in every mode and
    whatever the draw. *)
Theorem intersect_local_keeps_distances_distinct (kg : KernelGlobals)
    (local_isect : LocalIntersection) (c : Candidate) (lcg_state : option Z)
    (max_hits : Z) :
  0 <= max_hits ->
  buffer_ok local_isect max_hits ->
  distinct_distances local_isect max_hits ->
  exists stop local_isect' lcg_state',
    intersect_candidate kg local_isect c lcg_state max_hits =
      Some (stop, local_isect', lcg_state') /\
    distinct_distances local_isect' max_hits.
Proof.
  intros Hmax Hok Hdistinct.
  destruct (candidate_hit kg c) as [[[u v] t]|] eqn:Hhit;
    [|rewrite candidate_miss by assumption; eauto 6].
  destruct (Z.eqb_spec max_hits 0) as [->|Hne];
    [rewrite (candidate_existence _ _ _ _ u v t) by assumption; eauto 6|].
  assert (Hpos : 0 < max_hits) by lia.
  destruct lcg_state as [state|].
  - destruct (reservoir_call_summary kg local_isect c state max_hits Hpos Hok)
      as (local_isect' & state' & Hrun & _ & _ & _ & Hkeeps).
    rewrite Hrun. eauto 6.
  - destruct Hok as (_ & Hcap & HNg).
    destruct (lookup_lt_is_Some_2 (hits local_isect) 0) as [h0 Hh0]; [lia|].
    rewrite (closest_candidate_step kg local_isect c max_hits u v t h0)
      by (assumption || lia).
    destruct (negb (num_hits local_isect =? 0) && Float32.gtb t (isect_t h0));
      do 3 eexists; (split; [reflexivity|]); [exact Hdistinct|].
    intros i j hi hj Hi Hj Hij. cbn [num_hits] in *. lia.
Qed.

(** *** Whole runs with a random stream *)

(** X4: a run of any list of candidates in reservoir mode, from a buffer
    within its contract whose count cannot overflow during the run, never
    leaves the arrays: it returns (with "continue"), the buffer is within
    its contract again, its arrays keep their length, its count went up by
    at most one per candidate, and slots in use that held pairwise
    different distances still do. *)
Theorem reservoir_run_stays_in_contract (kg : KernelGlobals)
    (cs : list Candidate) (local_isect : LocalIntersection)
    (state max_hits : Z) :
  0 < max_hits ->
  buffer_ok local_isect max_hits ->
  num_hits local_isect + Z.of_nat (length cs) < INT_MAX ->
  exists final state',
    feed_candidates kg local_isect (Some state) max_hits cs =
      Some (false, final, Some state') /\
    buffer_ok final max_hits /\
    length (hits final) = length (hits local_isect) /\
    length (Ng final) = length (Ng local_isect) /\
    num_hits local_isect <= num_hits final
      <= num_hits local_isect + Z.of_nat (length cs) /\
    (distinct_distances local_isect max_hits ->
     distinct_distances final max_hits).
Proof.
  intros Hpos. revert local_isect state.
  induction cs as [|c cs IH]; intros local_isect state Hok Hroom.
  - exists local_isect, state. cbn [feed_candidates length].
    split; [reflexivity|]. split; [exact Hok|].
    split; [reflexivity|]. split; [reflexivity|]. split; [lia|]. auto.
  - cbn [length] in Hroom.
    destruct (reservoir_call_summary kg local_isect c state max_hits Hpos Hok)
      as (next & state1 & Hrun & Hhits & HNg & Hcount & Hkeeps).
    assert (Hok1 : buffer_ok next max_hits).
    { destruct Hok as (Hnum & Hcap & Hlen). unfold buffer_ok.
      rewrite Hhits, HNg. repeat split; try assumption; lia. }
    destruct (IH next state1 Hok1) as
      (final & state' & Hrest & Hokf & Hhitsf & HNgf & Hcountf & Hkeepsf);
      [lia|].
    exists final, state'. cbn [feed_candidates]. rewrite Hrun.
    cbn [mbind option_bind]. split; [exact Hrest|].
    split; [exact Hokf|]. split; [congruence|]. split; [congruence|].
    split; [cbn [length]; lia|]. auto.
Qed.

(** A candidate at a distance that one of the visited slots holds, in the
    terms of a candidate. *)
Lemma reservoir_duplicate_step (kg : KernelGlobals)
    (local_isect : LocalIntersection) (c : Candidate) (state max_hits : Z)
    (u v t : float) (i : Z) (h : Intersection) :
  candidate_hit kg c = Some (u, v, t) ->
  0 < max_hits ->
  buffer_ok local_isect max_hits ->
  0 <= i < Z.min max_hits (num_hits local_isect) ->
  hits local_isect !! Z.to_nat i = Some h ->
  Float32.eqb (isect_t h) t = true ->
  intersect_candidate kg local_isect c (Some state) max_hits =
  Some (false, local_isect, Some state).
Proof.
  intros Hhit Hmax Hok Hi Hh Heq.
  destruct (scan_length local_isect max_hits Hmax Hok) as [Hn Hle].
  unfold candidate_hit in Hhit.
  unfold intersect_candidate, motion_triangle_intersect_local.
  destruct (motion_triangle_vertices kg (cand_object c) (cand_prim c)
              (cand_time c)) as [[verts0 verts1] verts2].
  rewrite Hhit.
  destruct (Z.eqb_spec max_hits 0) as [?|_]; [lia|].
  rewrite (duplicate_scan_found _ _ _ (Z.to_nat i) h Hle); try assumption.
  - reflexivity.
  - lia.
Qed.

Lemma eqb_refl (t : float) : t <> S754_nan -> Float32.eqb t t = true.
Proof.
  intros Ht. unfold Float32.eqb, SFeqb.
  destruct t as [s|s| |s m e]; try destruct s; try contradiction;
    cbn [SFcompare]; try reflexivity;
    rewrite compare_cont_Eq, !Z.compare_refl; reflexivity.
Qed.

(** X5: in reservoir mode a candidate that has just been stored (appended
    while there was room, or drawn into a slot) is ignored when the
    traversal offers it again: the second call changes neither the buffer
    nor the stream, so offering it twice is offering it once.  The distance
    must be a number: NaN is equal to nothing, itself included. *)
Theorem stored_candidate_offered_again_is_ignored (kg : KernelGlobals)
    (local_isect : LocalIntersection) (c : Candidate) (state max_hits : Z)
    (u v t : float) :
  0 < max_hits ->
  buffer_ok local_isect max_hits ->
  num_hits local_isect + 1 < INT_MAX ->
  candidate_hit kg c = Some (u, v, t) ->
  t <> S754_nan ->
  fresh_distance local_isect max_hits t ->
  num_hits local_isect < max_hits \/
    (snd (lcg_step_uint state) mod 2 ^ 32) mod (num_hits local_isect + 1)
      < max_hits ->
  feed_candidates kg local_isect (Some state) max_hits [c; c] =
  feed_candidates kg local_isect (Some state) max_hits [c].
Proof.
  intros Hpos Hok Hroom Hhit Hnum Hfresh Hstored.
  pose proof (reservoir_candidate_step kg local_isect c state max_hits u v t
                Hhit Hpos Hok Hfresh) as Hstep.
  cbv zeta in Hstep.
  destruct Hok as (Hcount & Hcap & HNg).
  assert (Hdraw : 0 <= (snd (lcg_step_uint state) mod 2 ^ 32)
                         mod (num_hits local_isect + 1)
                    < num_hits local_isect + 1)
    by (apply Z.mod_pos_bound; lia).
  assert (Hagain : forall (slot : Z) lcg_state',
            0 <= slot < Z.min max_hits (num_hits local_isect + 1) ->
            intersect_candidate kg local_isect c (Some state) max_hits =
              Some (false,
                    {| num_hits := num_hits local_isect + 1;
                       hits := <[Z.to_nat slot :=
                                 motion_triangle_hit t u v (cand_prim c)
                                   (cand_object c)]> (hits local_isect);
                       Ng := <[Z.to_nat slot := candidate_Ng kg c]>
                               (Ng local_isect) |},
                    Some lcg_state') ->
            feed_candidates kg local_isect (Some state) max_hits [c; c] =
            feed_candidates kg local_isect (Some state) max_hits [c]).
  { intros slot lcg_state' Hslot Hrun.
    cbn [feed_candidates]. rewrite Hrun. cbn [mbind option_bind].
    erewrite (reservoir_duplicate_step kg _ c lcg_state' max_hits u v t slot);
      [reflexivity|exact Hhit|exact Hpos| | | |].
    - unfold buffer_ok. cbn [num_hits hits Ng]. rewrite !length_insert.
      repeat split; try assumption; lia.
    - cbn [num_hits]. exact Hslot.
    - cbn [hits]. apply list_lookup_insert_eq. lia.
    - cbn [motion_triangle_hit isect_t]. now apply eqb_refl. }
  destruct (Z.leb_spec (num_hits local_isect + 1) max_hits) as [Hin|Hout].
  - apply (Hagain (num_hits local_isect + 1 - 1) state); [lia|exact Hstep].
  - destruct Hstored as [?|Hkeep]; [lia|].
    destruct (Z.geb_spec ((snd (lcg_step_uint state) mod 2 ^ 32)
                            mod (num_hits local_isect + 1)) max_hits)
      as [?|_]; [lia|].
    eapply Hagain; [|exact Hstep]. lia.
Qed.

(** X6: the count is not the number of distinct hits.  When the reservoir is
    full and the draw discards a fresh candidate, nothing remembers its
    distance: offered again, the same candidate passes the duplicate scan
    again, and after the two calls the count is up by two. *)
Theorem discarded_candidate_offered_again_counts_again (kg : KernelGlobals)
    (local_isect : LocalIntersection) (c : Candidate) (state max_hits : Z)
    (u v t : float) :
  0 < max_hits ->
  buffer_ok local_isect max_hits ->
  num_hits local_isect + 1 < INT_MAX ->
  candidate_hit kg c = Some (u, v, t) ->
  fresh_distance local_isect max_hits t ->
  max_hits <= num_hits local_isect ->
  max_hits <=
    (snd (lcg_step_uint state) mod 2 ^ 32) mod (num_hits local_isect + 1) ->
  exists final state',
    feed_candidates kg local_isect (Some state) max_hits [c; c] =
      Some (false, final, Some state') /\
    num_hits final = num_hits local_isect + 2.
Proof.
  intros Hpos Hok Hroom Hhit Hfresh Hfull Hskip.
  pose proof (reservoir_candidate_step kg local_isect c state max_hits u v t
                Hhit Hpos Hok Hfresh) as Hstep.
  cbv zeta in Hstep.
  destruct (Z.leb_spec (num_hits local_isect + 1) max_hits) as [?|_]; [lia|].
  apply Z.geb_le in Hskip. rewrite Hskip in Hstep.
  assert (Hok1 : buffer_ok (set_num_hits local_isect
                              (num_hits local_isect + 1)) max_hits).
  { destruct Hok as (Hcount & Hcap & HNg). unfold buffer_ok.
    cbn [set_num_hits num_hits hits Ng]. repeat split; try assumption; lia. }
  assert (Hfresh1 : fresh_distance (set_num_hits local_isect
                                      (num_hits local_isect + 1)) max_hits t).
  { intros i h Hi Hh. cbn [set_num_hits num_hits hits] in *.
    apply (Hfresh i h); [lia | exact Hh]. }
  pose proof (reservoir_candidate_step kg _ c (fst (lcg_step_uint state))
                max_hits u v t Hhit Hpos Hok1 Hfresh1) as Hstep1.
  cbv zeta in Hstep1. cbn [set_num_hits num_hits hits Ng] in Hstep1.
  destruct (Z.leb_spec (num_hits local_isect + 1 + 1) max_hits) as [?|_];
    [lia|].
  cbn [feed_candidates]. rewrite Hstep. cbn [mbind option_bind].
  rewrite Hstep1.
  match goal with |- context [if ?draw then _ else _] => destruct draw end;
    cbn [mbind option_bind];
    do 2 eexists; (split; [reflexivity|]); cbn [set_num_hits num_hits]; lia.
Qed.

(** While there is room, a run appends: started on a buffer with [n] hits,
    it puts candidate [i] of the list into slot [n + i], leaves the slots
    below [n] alone and never draws. *)
Lemma fill_run_from (kg : KernelGlobals) (max_hits : Z) (cs : list Candidate) :
  forall (local_isect : LocalIntersection) (state : Z),
  0 < max_hits ->
  buffer_ok local_isect max_hits ->
  num_hits local_isect + Z.of_nat (length cs) <= max_hits ->
  num_hits local_isect + Z.of_nat (length cs) < INT_MAX ->
  (forall i c, cs !! i = Some c ->
     exists u v t,
       candidate_hit kg c = Some (u, v, t) /\
       fresh_distance local_isect max_hits t /\
       forall j c' u' v' t',
         (j < i)%nat -> cs !! j = Some c' ->
         candidate_hit kg c' = Some (u', v', t') ->
         Float32.eqb t' t = false) ->
  exists final,
    feed_candidates kg local_isect (Some state) max_hits cs =
      Some (false, final, Some state) /\
    num_hits final = num_hits local_isect + Z.of_nat (length cs) /\
    (forall j, (j < Z.to_nat (num_hits local_isect))%nat ->
       hits final !! j = hits local_isect !! j /\
       Ng final !! j = Ng local_isect !! j) /\
    (forall i c, cs !! i = Some c ->
       exists u v t,
         candidate_hit kg c = Some (u, v, t) /\
         hits final !! (Z.to_nat (num_hits local_isect) + i)%nat =
           Some (candidate_record c u v t) /\
         Ng final !! (Z.to_nat (num_hits local_isect) + i)%nat =
           Some (candidate_Ng kg c)).
Proof.
  induction cs as [|c cs IH];
    intros local_isect state Hpos Hok Hroom Hint Hcs.
  - exists local_isect. cbn [feed_candidates length].
    split; [reflexivity|]. split; [lia|]. split; [auto|].
    intros i c Hc. discriminate.
  - cbn [length] in Hroom, Hint.
    destruct (Hcs 0%nat c eq_refl) as (u & v & t & Hhit & Hfresh & _).
    pose proof (reservoir_candidate_step kg local_isect c state max_hits
                  u v t Hhit Hpos Hok Hfresh) as Hstep.
    cbv zeta in Hstep.
    destruct (Z.leb_spec (num_hits local_isect + 1) max_hits) as [_|?];
      [|lia].
    destruct Hok as (Hnum & Hcap & HNg).
    replace (num_hits local_isect + 1 - 1) with (num_hits local_isect)
      in Hstep by lia.
    set (n := Z.to_nat (num_hits local_isect)) in *.
    set (next := {| num_hits := num_hits local_isect + 1;
                    hits := <[n := motion_triangle_hit t u v (cand_prim c)
                                     (cand_object c)]> (hits local_isect);
                    Ng := <[n := candidate_Ng kg c]> (Ng local_isect) |})
      in *.
    destruct (IH next state Hpos) as (final & Hrun & Hcount & Hbelow & Hslots).
    + unfold buffer_ok, next. cbn [num_hits hits Ng].
      rewrite !length_insert. unfold INT_MAX in *.
      split; [lia|split; assumption].
    + unfold next. cbn [num_hits]. lia.
    + unfold next. cbn [num_hits]. lia.
    + intros i ci Hci.
      destruct (Hcs (S i) ci Hci) as (ui & vi & ti & Hhiti & Hfreshi & Hprev).
      exists ui, vi, ti. split; [exact Hhiti|]. split.
      * intros k h Hk Hh. unfold next in Hk, Hh. cbn [num_hits hits] in Hk, Hh.
        destruct (decide (Z.to_nat k = n)) as [Hkn|Hkn].
        -- rewrite Hkn, list_lookup_insert_eq in Hh by (unfold n; lia).
           injection Hh as <-. cbn [motion_triangle_hit isect_t].
           apply (Hprev 0%nat c u v t); [lia|reflexivity|exact Hhit].
        -- rewrite list_lookup_insert_ne in Hh by congruence.
           apply (Hfreshi k h); [unfold n in Hkn; lia | exact Hh].
      * intros j c' u' v' t' Hj Hc'.
        apply (Hprev (S j) c' u' v' t'); [lia | exact Hc'].
    + exists final. cbn [feed_candidates]. rewrite Hstep.
      cbn [mbind option_bind]. split; [exact Hrun|].
      unfold next in Hcount, Hbelow, Hslots. cbn [num_hits hits Ng] in *.
      replace (Z.to_nat (num_hits local_isect + 1)) with (S n) in *
        by (unfold n; lia).
      split; [cbn [length]; lia|]. split.
      * intros j Hj. destruct (Hbelow j) as [Hh HN]; [lia|].
        rewrite Hh, HN. now rewrite !list_lookup_insert_ne by lia.
      * intros [|i] ci Hci.
        -- injection Hci as <-. exists u, v, t. split; [exact Hhit|].
           rewrite Nat.add_0_r. destruct (Hbelow n) as [Hh HN]; [lia|].
           rewrite Hh, HN.
           rewrite !list_lookup_insert_eq by (unfold n; lia). auto.
        -- destruct (Hslots i ci Hci) as (ui & vi & ti & Hhiti & Hh & HN).
           exists ui, vi, ti. split; [exact Hhiti|].
           replace (n + S i)%nat with (S n + i)%nat by lia. auto.
Qed.

(** X9: as long as the buffer has room, reservoir mode is an append: a run
    of at most max_hits accepted candidates with pairwise different
    distances over an empty buffer leaves the count at their number,
    candidate i (record and normal) in slot i, and the random stream in the
    state it had: no draw is made before the buffer is full. *)
Theorem run_with_room_appends_in_order (kg : KernelGlobals)
    (cs : list Candidate) (local_isect : LocalIntersection)
    (state max_hits : Z) :
  0 < max_hits ->
  buffer_ok local_isect max_hits ->
  num_hits local_isect = 0 ->
  Z.of_nat (length cs) <= max_hits ->
  Z.of_nat (length cs) < INT_MAX ->
  (forall i c, cs !! i = Some c -> is_Some (candidate_hit kg c)) ->
  (forall i j ci cj ui vi ti uj vj tj,
     (i < j)%nat -> cs !! i = Some ci -> cs !! j = Some cj ->
     candidate_hit kg ci = Some (ui, vi, ti) ->
     candidate_hit kg cj = Some (uj, vj, tj) ->
     Float32.eqb ti tj = false) ->
  exists final,
    feed_candidates kg local_isect (Some state) max_hits cs =
      Some (false, final, Some state) /\
    num_hits final = Z.of_nat (length cs) /\
    forall i c, cs !! i = Some c ->
      exists u v t,
        candidate_hit kg c = Some (u, v, t) /\
        hits final !! i = Some (candidate_record c u v t) /\
        Ng final !! i = Some (candidate_Ng kg c).
Proof.
  intros Hpos Hok Hempty Hroom Hint Hhits Hdistinct.
  destruct (fill_run_from kg max_hits cs local_isect state Hpos Hok)
    as (final & Hrun & Hcount & _ & Hslots).
  - lia.
  - lia.
  - intros i c Hc.
    destruct (Hhits i c Hc) as [[[u v] t] Hhit].
    exists u, v, t. split; [exact Hhit|]. split.
    + intros k h Hk. lia.
    + intros j c' u' v' t' Hj Hc' Hhit'.
      now apply (Hdistinct j i c' c u' v' t' u v t).
  - exists final. split; [exact Hrun|]. split; [lia|].
    intros i c Hc. destruct (Hslots i c Hc) as (u & v & t & Hhit & Hh & HN).
    rewrite Hempty in Hh, HN. exists u, v, t. auto.
Qed.

(** *** Whole runs without a random stream *)

(** Membership in a list built with [++] from lists of the context. *)
Ltac in_list :=
  first [ assumption
        | apply list_elem_of_singleton; reflexivity
        | apply elem_of_app; left; in_list
        | apply elem_of_app; right; in_list ].

(** The invariant of a run in closest-only mode over an empty buffer
    [start]: as long as every candidate seen missed, the buffer is [start];
    from the first hit on, the count is 1 and slot 0 holds a nearest one of
    the candidates seen. *)
Lemma closest_run_invariant (kg : KernelGlobals) (start : LocalIntersection)
    (max_hits : Z) (cs seen : list Candidate)
    (local_isect : LocalIntersection) :
  0 < max_hits ->
  (0 < length (hits local_isect))%nat ->
  (0 < length (Ng local_isect))%nat ->
  (forall c u v t,
     c ∈ seen ++ cs -> candidate_hit kg c = Some (u, v, t) ->
     t <> S754_nan) ->
  ((forall c, c ∈ seen -> candidate_hit kg c = None) /\
   num_hits local_isect = 0 /\ local_isect = start) \/
  (num_hits local_isect = 1 /\ holds_nearest kg seen local_isect) ->
  exists final,
    feed_candidates kg local_isect None max_hits cs =
      Some (false, final, None) /\
    (((forall c, c ∈ seen ++ cs -> candidate_hit kg c = None) /\
      final = start) \/
     (num_hits final = 1 /\ holds_nearest kg (seen ++ cs) final)).
Proof.
  intros Hpos. revert seen local_isect.
  induction cs as [|c cs IH]; intros seen local_isect Hhits HNg Hnum Hinv.
  - exists local_isect. rewrite app_nil_r. split; [reflexivity|].
    destruct Hinv as [(Hmiss & _ & ->)|Hnear]; [left|right]; auto.
  - assert (Hseen : seen ++ c :: cs = (seen ++ [c]) ++ cs)
      by now rewrite <- app_assoc.
    rewrite Hseen in *.
    cbn [feed_candidates].
    destruct (candidate_hit kg c) as [[[u v] t]|] eqn:Hhit.
    + destruct (lookup_lt_is_Some_2 (hits local_isect) 0) as [h0 Hh0];
        [lia|].
      rewrite (closest_candidate_step kg local_isect c max_hits u v t h0)
        by (assumption || lia).
      assert (Ht : t <> S754_nan).
      { apply (Hnum c u v t); [in_list|exact Hhit]. }
      assert (Hwritten :
                holds_nearest kg (seen ++ [c])
                  {| num_hits := 1;
                     hits := <[0%nat :=
                               motion_triangle_hit t u v (cand_prim c)
                                 (cand_object c)]> (hits local_isect);
                     Ng := <[0%nat := candidate_Ng kg c]> (Ng local_isect) |}
                \/ (num_hits local_isect <> 0 /\
                    Float32.ltb (isect_t h0) t = true)).
      { destruct Hinv as [(Hmiss & Hzero & _)|[Hone Hnear]].
        - left. exists c, u, v, t. cbn [hits Ng].
          split; [in_list|]. split; [exact Hhit|].
          split; [now apply list_lookup_insert_eq|].
          split; [now apply list_lookup_insert_eq|].
          intros c' u' v' t' Hc' Hhit'.
          apply elem_of_app in Hc' as [Hc'|Hc'].
          + rewrite (Hmiss c' Hc') in Hhit'. discriminate.
          + apply list_elem_of_singleton in Hc' as ->.
            rewrite Hhit in Hhit'. injection Hhit' as <- <- <-.
            apply ltb_irrefl.
        - destruct Hnear as (cn & un & vn & tn & Hcn & Hhitn & Hslot & _
                             & Hleast).
          rewrite Hh0 in Hslot. injection Hslot as ->.
          cbn [candidate_record motion_triangle_hit isect_t].
          destruct (Float32.ltb tn t) eqn:Hlt; [right; split; [lia|reflexivity]|].
          left. exists c, u, v, t. cbn [hits Ng].
          split; [in_list|]. split; [exact Hhit|].
          split; [now apply list_lookup_insert_eq|].
          split; [now apply list_lookup_insert_eq|].
          intros c' u' v' t' Hc' Hhit'.
          apply elem_of_app in Hc' as [Hc'|Hc'].
          + apply (ltb_negative_transitive t' tn t).
            * apply (Hnum cn un vn tn); [in_list|exact Hhitn].
            * now apply (Hleast c' u' v' t').
            * exact Hlt.
          + apply list_elem_of_singleton in Hc' as ->.
            rewrite Hhit in Hhit'. injection Hhit' as <- <- <-.
            apply ltb_irrefl. }
      change (Float32.gtb t (isect_t h0))
        with (Float32.ltb (isect_t h0) t).
      destruct Hwritten as [Hnear|[Hsome Hlt]].
      * destruct (negb (num_hits local_isect =? 0)
                  && Float32.ltb (isect_t h0) t) eqn:Hreject;
          cbn [mbind option_bind].
        -- (* the stored hit is strictly nearer: it stays the nearest *)
           apply andb_true_iff in Hreject as [Hsome Hlt].
           apply (IH (seen ++ [c]) local_isect); try assumption.
           right.
           destruct Hinv as [(_ & Hzero & _)|[Hone Hold]];
             [rewrite Hzero in Hsome; discriminate|].
           split; [exact Hone|].
           destruct Hold as (cn & un & vn & tn & Hcn & Hhitn & Hslot & HslotN
                             & Hleast).
           exists cn, un, vn, tn.
           split; [in_list|]. split; [exact Hhitn|].
           split; [exact Hslot|]. split; [exact HslotN|].
           intros c' u' v' t' Hc' Hhit'.
           apply elem_of_app in Hc' as [Hc'|Hc'];
             [now apply (Hleast c' u' v' t')|].
           apply list_elem_of_singleton in Hc' as ->.
           rewrite Hhit in Hhit'. injection Hhit' as <- <- <-.
           rewrite Hh0 in Hslot. injection Hslot as ->.
           now apply ltb_asym.
        -- apply (IH (seen ++ [c])); cbn [hits Ng num_hits];
             rewrite ?length_insert; try assumption.
           right. split; [reflexivity | exact Hnear].
      * apply Z.eqb_neq in Hsome. rewrite Hsome, Hlt.
        cbn [negb andb mbind option_bind].
        apply (IH (seen ++ [c]) local_isect); try assumption.
        right.
        destruct Hinv as [(_ & Hzero & _)|[Hone Hold]];
          [apply Z.eqb_neq in Hsome; contradiction|].
        split; [exact Hone|].
        destruct Hold as (cn & un & vn & tn & Hcn & Hhitn & Hslot & HslotN
                          & Hleast).
        exists cn, un, vn, tn.
        split; [in_list|]. split; [exact Hhitn|].
        split; [exact Hslot|]. split; [exact HslotN|].
        intros c' u' v' t' Hc' Hhit'.
        apply elem_of_app in Hc' as [Hc'|Hc'];
          [now apply (Hleast c' u' v' t')|].
        apply list_elem_of_singleton in Hc' as ->.
        rewrite Hhit in Hhit'. injection Hhit' as <- <- <-.
        rewrite Hh0 in Hslot. injection Hslot as ->.
        now apply ltb_asym.
    + rewrite candidate_miss by assumption. cbn [mbind option_bind].
      apply (IH (seen ++ [c]) local_isect); try assumption.
      destruct Hinv as [(Hmiss & Hzero & Hstart)|[Hone Hold]]; [left|right].
      * split; [|auto]. intros c' Hc'.
        apply elem_of_app in Hc' as [Hc'|Hc']; [auto|].
        now apply list_elem_of_singleton in Hc' as ->.
      * split; [exact Hone|].
        destruct Hold as (cn & un & vn & tn & Hcn & Hhitn & Hslot & HslotN
                          & Hleast).
        exists cn, un, vn, tn.
        split; [in_list|]. split; [exact Hhitn|].
        split; [exact Hslot|]. split; [exact HslotN|].
        intros c' u' v' t' Hc' Hhit'.
        apply elem_of_app in Hc' as [Hc'|Hc'];
          [now apply (Hleast c' u' v' t')|].
        apply list_elem_of_singleton in Hc' as ->. congruence.
Qed.

(** X7: a run of any list of candidates in closest-only mode (no random
    stream, max_hits > 0) over an empty buffer ends, if every candidate
    missed, with the buffer as it was, and otherwise with count 1 and slot 0
    (record and normal) holding a candidate of the list that the geometric
    test accepts and than which no candidate of the list is accepted at a
    strictly smaller distance.  The distances must be numbers: a NaN
    distance is greater than nothing and would replace a nearer hit. *)
Theorem closest_run_keeps_a_nearest_hit (kg : KernelGlobals)
    (cs : list Candidate) (local_isect : LocalIntersection) (max_hits : Z) :
  0 < max_hits ->
  num_hits local_isect = 0 ->
  (0 < length (hits local_isect))%nat ->
  (0 < length (Ng local_isect))%nat ->
  (forall c u v t,
     c ∈ cs -> candidate_hit kg c = Some (u, v, t) -> t <> S754_nan) ->
  exists final,
    feed_candidates kg local_isect None max_hits cs =
      Some (false, final, None) /\
    (((forall c, c ∈ cs -> candidate_hit kg c = None) /\
      final = local_isect) \/
     (num_hits final = 1 /\ holds_nearest kg cs final)).
Proof.
  intros Hpos Hempty Hhits HNg Hnum.
  apply (closest_run_invariant kg local_isect max_hits cs [] local_isect);
    try assumption.
  left. split; [|auto]. intros c Hc. now apply elem_of_nil in Hc.
Qed.

(** *** The two intersectors *)

(** X8: the existence query (motion_triangle_intersect_local with
    max_hits = 0) answers true for every ray and primitive for which
    motion_triangle_intersect reports a hit, whatever the visibility mask;
    in a build without __VISIBILITY_FLAG__ the two answers are the same.
    The existence query applies no visibility filter, and it returns the
    buffer and the stream as it got them. *)
Theorem existence_query_covers_intersect (cfg : Config) (kg : KernelGlobals)
    (isect : Intersection) (local_isect : LocalIntersection)
    (lcg_state : option Z) (c : Candidate) (visibility : Z) :
  let hit :=
    fst (motion_triangle_intersect cfg kg isect (cand_P c) (cand_dir c)
           (cand_tmax c) (cand_time c) visibility (cand_object c)
           (cand_prim c) (cand_prim_addr c)) in
  let query := intersect_candidate kg local_isect c lcg_state 0 in
  (exists stop, query = Some (stop, local_isect, lcg_state)) /\
  (hit = true -> query = Some (true, local_isect, lcg_state)) /\
  (VISIBILITY_FLAG cfg = false ->
   query = Some (hit, local_isect, lcg_state)).
Proof.
  intros hit query.
  unfold hit, query, intersect_candidate, motion_triangle_intersect,
    motion_triangle_intersect_local.
  destruct (motion_triangle_vertices kg (cand_object c) (cand_prim c)
              (cand_time c)) as [[verts0 verts1] verts2].
  destruct (ray_triangle_intersect (cand_P c) (cand_dir c) (cand_tmax c)
              verts0 verts1 verts2) as [[[u v] t]|];
    cbn [Z.eqb fst].
  - split; [eauto|]. split; [reflexivity|]. now intros ->.
  - split; [eauto|]. split; [discriminate|reflexivity].
Qed.

(** X10: the visibility test is monotone in the mask: when
    motion_triangle_intersect reports a hit for a mask, it reports the same
    hit, with the same record, for every mask that contains it. *)
Theorem wider_mask_keeps_hit (cfg : Config) (kg : KernelGlobals)
    (isect : Intersection) (P dir : float3) (tmax time : float)
    (mask wider object prim prim_addr : Z) :
  Z.land mask wider = mask ->
  fst (motion_triangle_intersect cfg kg isect P dir tmax time mask object
         prim prim_addr) = true ->
  motion_triangle_intersect cfg kg isect P dir tmax time wider object prim
    prim_addr =
  motion_triangle_intersect cfg kg isect P dir tmax time mask object prim
    prim_addr.
Proof.
  intros Hwider. unfold motion_triangle_intersect.
  destruct (motion_triangle_vertices kg object prim time)
    as [[verts0 verts1] verts2].
  destruct (ray_triangle_intersect P dir tmax verts0 verts1 verts2)
    as [[[u v] t]|]; [|discriminate].
  destruct (VISIBILITY_FLAG cfg); cbn [negb orb]; [|reflexivity].
  destruct (Z.eqb_spec (Z.land (prim_visibility kg prim_addr) mask) 0)
    as [?|Hbits]; [discriminate|]. intros _.
  destruct (Z.eqb_spec (Z.land (prim_visibility kg prim_addr) wider) 0)
    as [Hnone|?]; [|reflexivity].
  exfalso. apply Hbits.
  rewrite <- Hwider, (Z.land_comm mask wider), Z.land_assoc, Hnone.
  apply Z.land_0_l.
Qed.

End HeaderFacts.

(** ** Runs on the reference kernel

    The theorems above at concrete rays, triangles and buffers, and the runs
    that separate the code from the statements it does not satisfy. *)

Section ReferenceRuns.
Import Reference.

(** The scan of a buffer with two slots in use finds no stored distance
    equal to [t] when neither slot holds it. *)
Lemma two_slots_fresh (local_isect : LocalIntersection) (a b : Intersection)
    (rest : list Intersection) (t : float) :
  hits local_isect = a :: b :: rest ->
  Float32.eqb (isect_t a) t = false ->
  Float32.eqb (isect_t b) t = false ->
  fresh_distance local_isect 2 t.
Proof.
  intros Hhits Ha Hb i h Hi Hh. rewrite Hhits in Hh.
  assert (Hcase : i = 0 \/ i = 1) by lia.
  destruct Hcase as [-> | ->]; cbn in Hh; injection Hh as <-; assumption.
Qed.

Lemma two_hits_ok : buffer_ok two_hits 2.
Proof. unfold buffer_ok, INT_MAX. cbn. lia. Qed.

(** C1 at the buffer [two_hits] with the counter stream in state 1: the
    candidate at distance 7 is the third, draws index 1 and replaces
    slot 1. *)
Lemma reservoir_slot_choice_witness :
  motion_triangle_intersect_local (K := kernel counter_stream) the_scene
    two_hits origin up (f 0) 0 2 2 (f 100) (Some 1) 2 =
  Some (false,
        {| num_hits := 3;
           hits := [hit_of 0 5; hit_of 2 7; no_hit; no_hit];
           Ng := Ng two_hits |},
        Some 2).
Proof.
  pose proof (reservoir_slot_choice (K := kernel counter_stream) the_scene
                two_hits origin up (f 0) 0 2 2 (f 100) 1 2) as Hclaim.
  edestruct Hclaim as [_ Hdraw].
  - vm_compute. reflexivity.
  - vm_compute. reflexivity.
  - lia.
  - exact two_hits_ok.
  - eapply two_slots_fresh; [reflexivity| |]; vm_compute; reflexivity.
  - destruct Hdraw as (_ & _ & Hkeep); [cbn; lia|].
    destruct Hkeep as [Hresult _]; [vm_compute; reflexivity|].
    exact Hresult.
Defined.

(** C6 at the buffer [two_hits]: primitive 3 lies at distance 5, which slot
    0 already holds. *)
Lemma duplicate_leaves_all_unchanged_witness :
  motion_triangle_intersect_local (K := kernel counter_stream) the_scene
    two_hits origin up (f 0) 0 3 3 (f 100) (Some 7) 2 =
  Some (false, two_hits, Some 7).
Proof.
  eapply (duplicate_leaves_all_unchanged (K := kernel counter_stream)
            the_scene two_hits origin up (f 0) 0 3 3 (f 100) 7 2
            _ _ _ _ _ _ 0 (hit_of 0 5)).
  - vm_compute. reflexivity.
  - vm_compute. reflexivity.
  - lia.
  - exact two_hits_ok.
  - cbn. lia.
  - reflexivity.
  - vm_compute. reflexivity.
Defined.

(** C7 at an existence query (max_hits = 0) that hits primitive 0. *)
Lemma true_only_for_existence_query_witness :
  motion_triangle_intersect_local (K := kernel counter_stream) the_scene
    two_hits origin up (f 0) 0 0 0 (f 100) None 0 =
  Some (true, two_hits, None).
Proof.
  edestruct (true_only_for_existence_query (K := kernel counter_stream)
               the_scene two_hits origin up (f 0) 0 0 0 (f 100) None 0)
    as [Htrue _].
  - vm_compute. reflexivity.
  - apply Htrue; [|reflexivity]. vm_compute. eauto.
Defined.

(** C10 at the buffer [two_hits] with the counter stream in state 2: the
    candidate at distance 7 draws index 2 and is dropped, the count is 3. *)
Lemma discard_still_counts_witness :
  exists local_isect',
    motion_triangle_intersect_local (K := kernel counter_stream) the_scene
      two_hits origin up (f 0) 0 2 2 (f 100) (Some 2) 2 =
    Some (false, local_isect', Some 3) /\
    num_hits local_isect' = 3 /\
    hits local_isect' = hits two_hits /\
    Ng local_isect' = Ng two_hits.
Proof.
  edestruct (discard_still_counts (K := kernel counter_stream) the_scene
               two_hits origin up (f 0) 0 2 2 (f 100) 2 2) as [Hdrop _].
  - vm_compute. reflexivity.
  - vm_compute. reflexivity.
  - lia.
  - exact two_hits_ok.
  - eapply two_slots_fresh; [reflexivity| |]; vm_compute; reflexivity.
  - apply Hdrop; [cbn; lia|]. vm_compute. discriminate.
Defined.

(** C2: the run of the scenario.  The four candidates hit at the distinct
    distances 5, 3, 7 and 9; slot 0 ends with candidate 3 and slot 1 with
    candidate 1, not with candidates 0 and 3. *)
Lemma zero_stream_run_slots :
  exists final,
    feed_candidates (K := kernel zero_stream) distinct_scene empty_buffer
      (Some 0) 2 [ray_at 0; ray_at 1; ray_at 2; ray_at 3] =
    Some (false, final, Some 2) /\
    num_hits final = 4 /\
    hits final = [hit_of 3 9; hit_of 1 3; no_hit; no_hit] /\
    hits final !! 0%nat <> Some (hit_of 0 5) /\
    hits final !! 1%nat <> Some (hit_of 3 9).
Proof.
  eexists. split; [vm_compute; reflexivity|].
  repeat split; cbn; discriminate.
Qed.

Lemma zero_stream_keeps_last_and_second_witness :
  exists final lcg_state',
    feed_candidates (K := kernel zero_stream) distinct_scene empty_buffer
      (Some 0) 2 [ray_at 0; ray_at 1; ray_at 2; ray_at 3] =
    Some (false, final, lcg_state') /\
    num_hits final = 4 /\
    hits final !! 0%nat = Some (hit_of 3 9) /\
    hits final !! 1%nat = Some (hit_of 1 3).
Proof.
  edestruct (zero_stream_keeps_last_and_second (K := kernel zero_stream)
               distinct_scene empty_buffer 0
               (ray_at 0) (ray_at 1) (ray_at 2) (ray_at 3))
    as (final & lcg_state' & Hrun & Hnum & Hslot0 & Hslot1 & _).
  - reflexivity.
  - reflexivity.
  - cbn. lia.
  - reflexivity.
  - vm_compute. reflexivity.
  - vm_compute. reflexivity.
  - vm_compute. reflexivity.
  - vm_compute. reflexivity.
  - vm_compute. reflexivity.
  - vm_compute. reflexivity.
  - vm_compute. reflexivity.
  - vm_compute. reflexivity.
  - vm_compute. reflexivity.
  - vm_compute. reflexivity.
  - exists final, lcg_state'. repeat split; assumption.
Defined.

(** C3: a tie.  The buffer holds primitive 0 at distance 5 and the candidate
    is primitive 3, also at distance 5: the stored distance is smaller than
    or equal to the candidate's, and the call overwrites slot 0. *)
Lemma closest_only_tie_overwrites :
  hits one_hit !! 0%nat = Some (hit_of 0 5) /\
  candidate_hit (K := kernel counter_stream) the_scene (ray_at 3) =
    Some (quarter, quarter, f 5) /\
  Float32.leb (isect_t (hit_of 0 5)) (f 5) = true /\
  intersect_candidate (K := kernel counter_stream) the_scene one_hit
    (ray_at 3) None 1 =
    Some (false,
          {| num_hits := 1;
             hits := [hit_of 3 5; no_hit; no_hit; no_hit];
             Ng := Ng one_hit |},
          None) /\
  intersect_candidate (K := kernel counter_stream) the_scene one_hit
    (ray_at 3) None 1 <> Some (false, one_hit, None).
Proof.
  repeat split; try (vm_compute; reflexivity).
  vm_compute. discriminate.
Qed.

Lemma closest_only_keeps_strictly_nearer_witness :
  feed_candidates (K := kernel counter_stream) the_scene empty_buffer None 1
    [ray_at 0; ray_at 1; ray_at 2] =
  Some (false,
        {| num_hits := 1;
           hits := [hit_of 1 3; no_hit; no_hit; no_hit];
           Ng := Ng one_hit |},
        None).
Proof.
  edestruct (closest_only_keeps_strictly_nearer (K := kernel counter_stream)
               the_scene empty_buffer 1 no_hit) as (_ & _ & Hrun).
  - lia.
  - reflexivity.
  - cbn. lia.
  - eapply (Hrun (ray_at 0) (ray_at 1) (ray_at 2));
      vm_compute; reflexivity.
Defined.

(** C4: a hit whose traversal distance is one unit in the last place short
    of the plane z = 2, on an object with the transform applied: the naive
    point has z just below 2, the function returns the point on the
    plane. *)
Lemma refine_applied_is_not_naive :
  transform_applied (K := kernel counter_stream) sd_applied = true /\
  motion_triangle_refine (K := kernel counter_stream) cfg_cpu the_scene
    sd_applied origin up below_two 0 0 (triangle_at 2) =
    make_float3 quarter quarter (f 2) /\
  f3_add origin (f3_mul up below_two) = make_float3 quarter quarter below_two /\
  motion_triangle_refine (K := kernel counter_stream) cfg_cpu the_scene
    sd_applied origin up below_two 0 0 (triangle_at 2) <>
    f3_add origin (f3_mul up below_two).
Proof.
  repeat split; try (vm_compute; reflexivity).
  vm_compute. discriminate.
Qed.

Lemma refine_with_transform_applied_witness :
  motion_triangle_refine (K := kernel counter_stream) cfg_cpu the_scene
    sd_applied origin up below_two 0 0 (triangle_at 2) =
  make_float3 quarter quarter (f 2).
Proof.
  unfold triangle_at.
  rewrite (refine_with_transform_applied (K := kernel counter_stream) cfg_cpu
             the_scene sd_applied origin up below_two 0 0)
    by reflexivity.
  vm_compute. reflexivity.
Defined.

(** C9: a call with t = 0 on an object with the transform applied: the
    function does not return P, it returns the point of the plane z = 2
    above P. *)
Lemma refine_zero_distance_applied_moves :
  Float32.eqb (f 0) Float32.zero = true /\
  motion_triangle_refine (K := kernel counter_stream) cfg_cpu the_scene
    sd_applied origin up (f 0) 0 0 (triangle_at 2) =
    make_float3 quarter quarter (f 2) /\
  motion_triangle_refine (K := kernel counter_stream) cfg_cpu the_scene
    sd_applied origin up (f 0) 0 0 (triangle_at 2) <> origin.
Proof.
  repeat split; try (vm_compute; reflexivity).
  vm_compute. discriminate.
Qed.

Lemma refine_zero_distance_witness :
  motion_triangle_refine (K := kernel counter_stream) cfg_cpu the_scene
    sd_instanced origin up (f 0) 0 0 (triangle_at 2) = origin.
Proof.
  apply (refine_zero_distance (K := kernel counter_stream)); reflexivity.
Defined.

(** C8 on the GPU-ray-tracing configuration. *)
Lemma refine_local_is_refine_on_gpu_raytracing_witness :
  motion_triangle_refine_local (K := kernel counter_stream) cfg_gpu the_scene
    sd_instanced origin up (f 5) 0 0 (triangle_at 5) =
  motion_triangle_refine (K := kernel counter_stream) cfg_gpu the_scene
    sd_instanced origin up (f 5) 0 0 (triangle_at 5).
Proof.
  apply (refine_local_is_refine_on_gpu_raytracing (K := kernel counter_stream)).
  reflexivity.
Defined.


(** *** The further properties at concrete inputs *)

Lemma empty_buffer_ok : buffer_ok empty_buffer 2.
Proof. unfold buffer_ok, INT_MAX. cbn. lia. Qed.

Lemma empty_buffer_fresh (t : float) : fresh_distance empty_buffer 2 t.
Proof. intros i h Hi. cbn in Hi. lia. Qed.

Lemma two_hits_distinct : distinct_distances two_hits 2.
Proof.
  intros i j hi hj Hi Hj Hij Hhi Hhj. cbn in Hi, Hj.
  assert (Hcase : (i = 0 /\ j = 1) \/ (i = 1 /\ j = 0)) by lia.
  destruct Hcase as [[-> ->]|[-> ->]]; cbn in Hhi, Hhj;
    injection Hhi as <-; injection Hhj as <-; vm_compute; reflexivity.
Qed.

Lemma refiners_agree_without_instancing_witness :
  motion_triangle_refine_local (K := kernel counter_stream) cfg_cpu the_scene
    sd_applied origin up below_two 0 0 (triangle_at 2) =
  motion_triangle_refine (K := kernel counter_stream) cfg_cpu the_scene
    sd_applied origin up below_two 0 0 (triangle_at 2).
Proof.
  apply (refiners_agree_without_instancing (K := kernel counter_stream)).
  left. reflexivity.
Defined.

Lemma intersect_local_writes_one_slot_below_max_hits_witness :
  exists stop local_isect' lcg_state',
    intersect_candidate (K := kernel counter_stream) the_scene two_hits
      (ray_at 2) (Some 1) 2 = Some (stop, local_isect', lcg_state') /\
    length (hits local_isect') = length (hits two_hits) /\
    length (Ng local_isect') = length (Ng two_hits) /\
    (forall j, (Z.to_nat 2 <= j)%nat ->
       hits local_isect' !! j = hits two_hits !! j /\
       Ng local_isect' !! j = Ng two_hits !! j) /\
    (exists slot, forall j, j <> slot ->
       hits local_isect' !! j = hits two_hits !! j /\
       Ng local_isect' !! j = Ng two_hits !! j).
Proof.
  apply (intersect_local_writes_one_slot_below_max_hits
           (K := kernel counter_stream) the_scene two_hits (ray_at 2)
           (Some 1) 2); [lia | exact two_hits_ok].
Defined.

Lemma intersect_local_keeps_distances_distinct_witness :
  exists stop local_isect' lcg_state',
    intersect_candidate (K := kernel counter_stream) the_scene two_hits
      (ray_at 2) (Some 1) 2 = Some (stop, local_isect', lcg_state') /\
    distinct_distances local_isect' 2.
Proof.
  apply (intersect_local_keeps_distances_distinct
           (K := kernel counter_stream) the_scene two_hits (ray_at 2)
           (Some 1) 2);
    [lia | exact two_hits_ok | exact two_hits_distinct].
Defined.

Lemma reservoir_run_stays_in_contract_witness :
  exists final state',
    feed_candidates (K := kernel counter_stream) distinct_scene empty_buffer
      (Some 0) 2 [ray_at 0; ray_at 1; ray_at 2; ray_at 3] =
      Some (false, final, Some state') /\
    buffer_ok final 2 /\
    length (hits final) = length (hits empty_buffer) /\
    length (Ng final) = length (Ng empty_buffer) /\
    num_hits empty_buffer <= num_hits final
      <= num_hits empty_buffer + Z.of_nat 4 /\
    (distinct_distances empty_buffer 2 -> distinct_distances final 2).
Proof.
  apply (reservoir_run_stays_in_contract (K := kernel counter_stream)
           distinct_scene [ray_at 0; ray_at 1; ray_at 2; ray_at 3]
           empty_buffer 0 2);
    [lia | exact empty_buffer_ok | vm_compute; reflexivity].
Defined.

Lemma stored_candidate_offered_again_is_ignored_witness :
  feed_candidates (K := kernel counter_stream) the_scene empty_buffer
    (Some 0) 2 [ray_at 0; ray_at 0] =
  feed_candidates (K := kernel counter_stream) the_scene empty_buffer
    (Some 0) 2 [ray_at 0].
Proof.
  apply (stored_candidate_offered_again_is_ignored
           (K := kernel counter_stream) the_scene empty_buffer (ray_at 0)
           0 2 quarter quarter (f 5)).
  - lia.
  - exact empty_buffer_ok.
  - vm_compute. reflexivity.
  - vm_compute. reflexivity.
  - discriminate.
  - apply empty_buffer_fresh.
  - left. cbn. lia.
Defined.

Lemma discarded_candidate_offered_again_counts_again_witness :
  exists final state',
    feed_candidates (K := kernel counter_stream) the_scene two_hits
      (Some 2) 2 [ray_at 2; ray_at 2] = Some (false, final, Some state') /\
    num_hits final = num_hits two_hits + 2.
Proof.
  apply (discarded_candidate_offered_again_counts_again
           (K := kernel counter_stream) the_scene two_hits (ray_at 2)
           2 2 quarter quarter (f 7)).
  - lia.
  - exact two_hits_ok.
  - vm_compute. reflexivity.
  - vm_compute. reflexivity.
  - eapply two_slots_fresh; [reflexivity| |]; vm_compute; reflexivity.
  - cbn. lia.
  - vm_compute. discriminate.
Defined.

Lemma closest_run_keeps_a_nearest_hit_witness :
  exists final,
    feed_candidates (K := kernel counter_stream) the_scene empty_buffer None
      1 [ray_at 0; ray_at 1; ray_at 2] = Some (false, final, None) /\
    (((forall c, c ∈ [ray_at 0; ray_at 1; ray_at 2] ->
         candidate_hit (K := kernel counter_stream) the_scene c = None) /\
      final = empty_buffer) \/
     (num_hits final = 1 /\
      holds_nearest (K := kernel counter_stream) the_scene
        [ray_at 0; ray_at 1; ray_at 2] final)).
Proof.
  apply (closest_run_keeps_a_nearest_hit (K := kernel counter_stream)
           the_scene [ray_at 0; ray_at 1; ray_at 2] empty_buffer 1).
  - lia.
  - reflexivity.
  - cbn. lia.
  - cbn. lia.
  - intros c u v t Hc Hhit.
    repeat (apply elem_of_cons in Hc as [->|Hc]);
      [| | |now apply elem_of_nil in Hc];
      vm_compute in Hhit; injection Hhit as <- <- <-; discriminate.
Defined.

Lemma run_with_room_appends_in_order_witness :
  exists final,
    feed_candidates (K := kernel counter_stream) distinct_scene empty_buffer
      (Some 0) 2 [ray_at 0; ray_at 1] = Some (false, final, Some 0) /\
    num_hits final = Z.of_nat 2 /\
    forall i c, [ray_at 0; ray_at 1] !! i = Some c ->
      exists u v t,
        candidate_hit (K := kernel counter_stream) distinct_scene c =
          Some (u, v, t) /\
        hits final !! i = Some (candidate_record c u v t) /\
        Ng final !! i =
          Some (candidate_Ng (K := kernel counter_stream) distinct_scene c).
Proof.
  apply (run_with_room_appends_in_order (K := kernel counter_stream)
           distinct_scene [ray_at 0; ray_at 1] empty_buffer 0 2).
  - lia.
  - exact empty_buffer_ok.
  - reflexivity.
  - cbn. lia.
  - vm_compute. reflexivity.
  - intros [|[|i]] c Hc; cbn in Hc; try discriminate;
      injection Hc as <-; vm_compute; eauto.
  - intros [|[|i]] [|[|j]] ci cj ui vi ti uj vj tj Hij Hci Hcj Hi Hj;
      cbn in Hci, Hcj; try discriminate; try lia.
    injection Hci as <-. injection Hcj as <-.
    vm_compute in Hi, Hj.
    injection Hi as <- <- <-. injection Hj as <- <- <-.
    vm_compute. reflexivity.
Defined.

Lemma wider_mask_keeps_hit_witness :
  motion_triangle_intersect (K := kernel counter_stream) cfg_cpu the_scene
    no_hit origin up (f 100) (f 0) 3 0 3 3 =
  motion_triangle_intersect (K := kernel counter_stream) cfg_cpu the_scene
    no_hit origin up (f 100) (f 0) 1 0 3 3.
Proof.
  apply (wider_mask_keeps_hit (K := kernel counter_stream)).
  - reflexivity.
  - vm_compute. reflexivity.
Defined.

End ReferenceRuns.
